(** * f2elint [actions/scan.ts]: the lint-and-format orchestrator

    A shallow embedding of [src/packages/f2elint/src/actions/scan.ts] and
    the verification of its specification.

    Layout of the development:
    - [JsString]: the JavaScript string primitives the file uses
      ([trim], [split(/\r?\n/)], [startsWith], [replace(/^\./, '')],
      [join], [includes]) over UTF-16 code units;
    - [Path]: Node's posix [path.extname] and [path.resolve];
    - the data model ([ScanOptions], [Config], [ScanResult], [ScanReport]);
    - the file system, the trace of calls made to the external engines and
      the state-and-exception monad in which [scan] runs;
    - the tool adapters and the platform as interfaces (type classes);
    - [scan] itself, one definition per block of the source;
    - test doubles for the engines, then the theorems. *)

From Stdlib Require Import NArith ZArith Lia String Ascii List Bool Sorted.
From stdpp Require Import base option list gmap.
Import ListNotations.

Set Warnings "-register-all".
Local Open Scope N_scope.

(** ** JavaScript strings *)

(** A JavaScript string is a sequence of UTF-16 code units. *)
Abbreviation jsstring := (list N).

Module JsString.

(** An ASCII literal as a JavaScript string. *)
Definition lit (s : string) : jsstring :=
  map N_of_ascii (list_ascii_of_string s).

Definition eqb (a b : jsstring) : bool := bool_decide (a = b).

(** ECMAScript [WhiteSpace]: TAB, VT, FF, SP, NBSP, ZWNBSP and the
    Unicode space separators. *)
Definition is_white_space (c : N) : bool :=
  (c =? 9) || (c =? 11) || (c =? 12) || (c =? 32) || (c =? 160)
  || (c =? 5760) || ((8192 <=? c) && (c <=? 8202))
  || (c =? 8239) || (c =? 8287) || (c =? 12288) || (c =? 65279).

(** ECMAScript [LineTerminator]: LF, CR, LS, PS. *)
Definition is_line_terminator (c : N) : bool :=
  (c =? 10) || (c =? 13) || (c =? 8232) || (c =? 8233).

(** The code units [String.prototype.trim] strips. *)
Definition is_trimmed_char (c : N) : bool :=
  is_white_space c || is_line_terminator c.

Fixpoint trimStart (s : jsstring) : jsstring :=
  match s with
  | [] => []
  | c :: s' => if is_trimmed_char c then trimStart s' else s
  end.

Definition trimEnd (s : jsstring) : jsstring := rev (trimStart (rev s)).

(** [str.trim()] *)
Definition trim (s : jsstring) : jsstring := trimEnd (trimStart s).

(** [str.startsWith(p)] *)
Fixpoint startsWith (p s : jsstring) : bool :=
  match p, s with
  | [], _ => true
  | _ :: _, [] => false
  | a :: p', b :: s' => (a =? b) && startsWith p' s'
  end.

(** Truthiness of a string: the empty string is the only falsy one. *)
Definition nonempty (s : jsstring) : bool :=
  match s with [] => false | _ :: _ => true end.

Definition LF : N := 10.
Definition CR : N := 13.

Definition cons_to_head (c : N) (ls : list jsstring) : list jsstring :=
  match ls with
  | [] => [[c]]
  | l :: ls' => (c :: l) :: ls'
  end.

(** [content.split(/\r?\n/)]: the separator is LF, or CR immediately
    followed by LF; a CR that is not followed by LF stays in its line.
    The empty string splits into one empty line. *)
Fixpoint split_lines (s : jsstring) : list jsstring :=
  match s with
  | [] => [[]]
  | c :: s' =>
      if c =? LF then [] :: split_lines s'
      else
        match s' with
        | d :: s'' =>
            if (c =? CR) && (d =? LF) then [] :: split_lines s''
            else cons_to_head c (split_lines s')
        | [] => cons_to_head c (split_lines s')
        end
  end.

(** [t.replace(/^\./, '')]: drop one leading dot. *)
Definition strip_leading_dot (t : jsstring) : jsstring :=
  match t with
  | c :: t' => if c =? 46 then t' else t
  | [] => []
  end.

(** [arr.join(sep)] *)
Fixpoint join (sep : jsstring) (parts : list jsstring) : jsstring :=
  match parts with
  | [] => []
  | [p] => p
  | p :: ps => p ++ sep ++ join sep ps
  end.

(** [arr.includes(x)] on an array of strings. *)
Definition includes (arr : list jsstring) (x : jsstring) : bool :=
  existsb (eqb x) arr.

(** [str.split('/')], used by the model of [path.resolve]. *)
Fixpoint split_on (sep : N) (s : jsstring) : list jsstring :=
  match s with
  | [] => [[]]
  | c :: s' =>
      if c =? sep then [] :: split_on sep s'
      else cons_to_head c (split_on sep s')
  end.

End JsString.

(** ** Node's [path] module, posix flavour *)

Module Path.
Import JsString.

Local Open Scope Z_scope.

Definition SLASH : N := 47.
Definition DOT : N := 46.

(** The variables of the loop of [path.extname]; indices are [Z] because
    the source initialises them to [-1]. *)
Record ExtScan := mkExtScan {
  startDot : Z;
  startPart : Z;
  end_ : Z;
  matchedSlash : bool;
  preDotState : Z;
  stopped : bool
}.

Definition ext_init : ExtScan :=
  mkExtScan (-1) 0 (-1) true 0 false.

(** One iteration of the right-to-left loop of [path.extname] at index
    [i] holding code unit [code]; [stopped] records the [break]. *)
Definition extname_step (st : ExtScan) (ic : Z * N) : ExtScan :=
  let '(i, code) := ic in
  if stopped st then st
  else if (code =? SLASH)%N then
    if negb (matchedSlash st)
    then mkExtScan (startDot st) (i + 1) (end_ st) (matchedSlash st)
                   (preDotState st) true
    else st
  else
    let st1 :=
      if end_ st =? -1
      then mkExtScan (startDot st) (startPart st) (i + 1) false
                     (preDotState st) false
      else st in
    if (code =? DOT)%N then
      if startDot st1 =? -1
      then mkExtScan i (startPart st1) (end_ st1) (matchedSlash st1)
                     (preDotState st1) false
      else if negb (preDotState st1 =? 1)
      then mkExtScan (startDot st1) (startPart st1) (end_ st1)
                     (matchedSlash st1) 1 false
      else st1
    else if negb (startDot st1 =? -1)
    then mkExtScan (startDot st1) (startPart st1) (end_ st1)
                   (matchedSlash st1) (-1) false
    else st1.

Definition indexed (s : jsstring) : list (Z * N) :=
  imap (fun i c => (Z.of_nat i, c)) s.

(** [str.slice(a, b)] for [0 <= a <= b]. *)
Definition slice (s : jsstring) (a b : Z) : jsstring :=
  take (Z.to_nat (b - a)) (drop (Z.to_nat a) s).

(** [path.extname(p)] *)
Definition extname (p : jsstring) : jsstring :=
  let st := fold_left extname_step (rev (indexed p)) ext_init in
  if (startDot st =? -1) || (end_ st =? -1) || (preDotState st =? 0)
     || ((preDotState st =? 1) && (startDot st =? end_ st - 1)
         && (startDot st =? startPart st + 1))
  then []
  else slice p (startDot st) (end_ st).

(** One segment of [normalizeString]: empty and ["."] segments vanish,
    [".."] removes the last segment unless that is itself [".."] (or
    there is none), in which case it is kept only above a relative
    root. [acc] is the stack of segments, last one first. *)
Definition normalize_step (allowAboveRoot : bool)
    (acc : list jsstring) (seg : jsstring) : list jsstring :=
  if eqb seg [] || eqb seg [DOT] then acc
  else if eqb seg [DOT; DOT] then
    match acc with
    | top :: rest =>
        if eqb top [DOT; DOT]
        then (if allowAboveRoot then seg :: acc else acc)
        else rest
    | [] => if allowAboveRoot then [seg] else []
    end
  else seg :: acc.

Definition normalizeString (p : jsstring) (allowAboveRoot : bool)
  : jsstring :=
  join [SLASH]
    (rev (fold_left (normalize_step allowAboveRoot) (split_on SLASH p) [])).

Definition is_absolute (p : jsstring) : bool :=
  match p with c :: _ => (c =? SLASH)%N | [] => false end.

(** The right-to-left loop of [path.resolve]: [args] is given last
    argument first; empty arguments are skipped and the loop stops at
    the first absolute one. *)
Fixpoint resolve_loop (args_rev : list jsstring) (resolvedPath : jsstring)
  : jsstring * bool :=
  match args_rev with
  | [] => (resolvedPath, false)
  | p :: rest =>
      match p with
      | [] => resolve_loop rest resolvedPath
      | _ :: _ =>
          let resolvedPath' := p ++ [SLASH] ++ resolvedPath in
          if is_absolute p then (resolvedPath', true)
          else resolve_loop rest resolvedPath'
      end
  end.

(** [path.resolve(...args)] in a process whose working directory is
    [process_cwd]. *)
Definition resolve (process_cwd : jsstring) (args : list jsstring)
  : jsstring :=
  let '(resolvedPath, resolvedAbsolute) :=
    resolve_loop (rev args ++ [process_cwd]) [] in
  let normalized := normalizeString resolvedPath (negb resolvedAbsolute) in
  if resolvedAbsolute then SLASH :: normalized
  else match normalized with [] => [DOT] | _ :: _ => normalized end.

End Path.

(** ** Data model *)

(** The JavaScript values a configuration object may hold under a toggle
    key. [JRef] stands for any object, array or function. *)
Inductive JsVal :=
| JUndefined
| JNull
| JBool (b : bool)
| JNum (n : Z)
| JNaN
| JStr (s : jsstring)
| JRef (r : N).

(** ToBoolean *)
Definition truthy (v : JsVal) : bool :=
  match v with
  | JUndefined | JNull | JNaN => false
  | JBool b => b
  | JNum n => negb (n =? 0)%Z
  | JStr s => JsString.nonempty s
  | JRef _ => true
  end.

(** [v !== false] *)
Definition is_not_false (v : JsVal) : bool :=
  match v with
  | JBool false => false
  | _ => true
  end.

(** A plain JavaScript object: [PKG], [Config]. *)
Abbreviation JsObj := (gmap jsstring JsVal).

(** [o.key]: a missing key reads as [undefined]. *)
Definition prop (o : JsObj) (key : string) : JsVal :=
  default JUndefined (o !! JsString.lit key).

(** [ScanOptions], the fields [scan] reads. *)
Record ScanOptions := mkScanOptions {
  cwd : jsstring;
  include : jsstring;
  files : option (list jsstring);
  quiet : bool;
  fix_ : bool;
  outputReport : bool
}.

Inductive Severity := SevError | SevWarning.

(** Modelled from the spec: the [Finding] record of [../types], which is
    not part of the sources at hand ("file path, line/column (when known),
    severity, message, rule identifier"). *)
Record Finding := mkFinding {
  finding_filePath : jsstring;
  line : option N;
  column : option N;
  severity : Severity;
  message : jsstring;
  rule : jsstring
}.

(** Modelled from the spec: the [ScanResult] record of [../types], which
    is not part of the sources at hand ("a file path, a list of findings,
    an error count, and a warning count"). Counts are non-negative
    integers. *)
Module ScanResult.
Record t := mk {
  filePath : jsstring;
  messages : list Finding;
  errorCount : N;
  warningCount : N
}.
End ScanResult.

(** A thrown value. *)
Record Error := mkError {
  error_code : jsstring;
  error_detail : jsstring
}.

(** The value [scan] returns. *)
Module ScanReport.
Record t := mk {
  results : list ScanResult.t;
  errorCount : N;
  warningCount : N;
  runErrors : list Error
}.
End ScanReport.

(** The value of [getLintFiles]: [string | string[]]. *)
Inductive LintFiles :=
| FileList (names : list jsstring)
| Pattern (glob_pattern : jsstring).

(** [typeof files === 'string'] *)
Definition is_pattern (f : LintFiles) : bool :=
  match f with Pattern _ => true | FileList _ => false end.

(** [...files]: the elements of an array, the characters of a string. *)
Definition spread (f : LintFiles) : list jsstring :=
  match f with
  | FileList names => names
  | Pattern p => map (fun c => [c]) p
  end.

(** ** [JSON.stringify(value, null, 2)] *)

Module JSON.
Import JsString.

(** JSON values; numbers are the non-negative integers, the only ones a
    [ScanResult] holds. *)
Inductive value :=
| Null
| Bool (b : bool)
| Num (n : N)
| Str (s : jsstring)
| Arr (items : list value)
| Obj (props : list (jsstring * value)).

Definition QUOTE : N := 34.
Definition BACKSLASH : N := 92.

Definition hex_digit (d : N) : N :=
  if d <? 10 then 48 + d else 87 + d.

(** [\uXXXX] with four lower-case hexadecimal digits. *)
Definition unicode_escape (c : N) : jsstring :=
  [BACKSLASH; 117;
   hex_digit (c / 4096 mod 16); hex_digit (c / 256 mod 16);
   hex_digit (c / 16 mod 16); hex_digit (c mod 16)].

Definition is_high_surrogate (c : N) : bool := (55296 <=? c) && (c <=? 56319).
Definition is_low_surrogate (c : N) : bool := (56320 <=? c) && (c <=? 57343).

(** One code unit of [QuoteJSONString] that is not the head of a
    surrogate pair. *)
Definition escape_unit (c : N) : jsstring :=
  if c =? 8 then [BACKSLASH; 98]
  else if c =? 9 then [BACKSLASH; 116]
  else if c =? 10 then [BACKSLASH; 110]
  else if c =? 12 then [BACKSLASH; 102]
  else if c =? 13 then [BACKSLASH; 114]
  else if c =? QUOTE then [BACKSLASH; QUOTE]
  else if c =? BACKSLASH then [BACKSLASH; BACKSLASH]
  else if (c <? 32) || is_high_surrogate c || is_low_surrogate c
  then unicode_escape c
  else [c].

(** The body of [QuoteJSONString]: a high surrogate followed by a low
    one is one code point and is kept; a lone surrogate is escaped. *)
Fixpoint quote_units (s : jsstring) : jsstring :=
  match s with
  | [] => []
  | c :: s' =>
      match s' with
      | d :: s'' =>
          if is_high_surrogate c && is_low_surrogate d
          then c :: d :: quote_units s''
          else escape_unit c ++ quote_units s'
      | [] => escape_unit c
      end
  end.

Definition quote (s : jsstring) : jsstring :=
  [QUOTE] ++ quote_units s ++ [QUOTE].

Fixpoint digits_of_uint (d : Decimal.uint) : jsstring :=
  match d with
  | Decimal.Nil => []
  | Decimal.D0 d' => 48 :: digits_of_uint d'
  | Decimal.D1 d' => 49 :: digits_of_uint d'
  | Decimal.D2 d' => 50 :: digits_of_uint d'
  | Decimal.D3 d' => 51 :: digits_of_uint d'
  | Decimal.D4 d' => 52 :: digits_of_uint d'
  | Decimal.D5 d' => 53 :: digits_of_uint d'
  | Decimal.D6 d' => 54 :: digits_of_uint d'
  | Decimal.D7 d' => 55 :: digits_of_uint d'
  | Decimal.D8 d' => 56 :: digits_of_uint d'
  | Decimal.D9 d' => 57 :: digits_of_uint d'
  end.

(** [Number::toString] of a non-negative integer. *)
Definition number_to_string (n : N) : jsstring :=
  digits_of_uint (N.to_uint n).

(** The [gap] of [JSON.stringify(_, null, 2)]: two spaces. *)
Definition gap : jsstring := [32; 32].

(** [SerializeJSONProperty] at indentation [indent]. *)
Fixpoint serialize (indent : jsstring) (v : value) : jsstring :=
  match v with
  | Null => lit "null"
  | Bool true => lit "true"
  | Bool false => lit "false"
  | Num n => number_to_string n
  | Str s => quote s
  | Arr [] => lit "[]"
  | Arr items =>
      let inner := indent ++ gap in
      [91; LF] ++ inner
      ++ join ([44; LF] ++ inner) (map (serialize inner) items)
      ++ [LF] ++ indent ++ [93]
  | Obj [] => lit "{}"
  | Obj props =>
      let inner := indent ++ gap in
      [123; LF] ++ inner
      ++ join ([44; LF] ++ inner)
           (map (fun kv => quote (fst kv) ++ [58; 32] ++ serialize inner (snd kv))
                props)
      ++ [LF] ++ indent ++ [125]
  end.

(** A property whose value is [undefined] is left out of an object. *)
Definition optional (key : string) (v : option N) : list (jsstring * value) :=
  match v with
  | Some n => [(lit key, Num n)]
  | None => []
  end.

Definition of_severity (s : Severity) : value :=
  match s with
  | SevError => Str (lit "error")
  | SevWarning => Str (lit "warning")
  end.

Definition of_Finding (f : Finding) : value :=
  Obj ([(lit "filePath", Str (finding_filePath f))]
       ++ optional "line" (line f)
       ++ optional "column" (column f)
       ++ [(lit "severity", of_severity (severity f));
           (lit "message", Str (message f));
           (lit "rule", Str (rule f))]).

Definition of_ScanResult (r : ScanResult.t) : value :=
  Obj [(lit "filePath", Str (ScanResult.filePath r));
       (lit "messages", Arr (map of_Finding (ScanResult.messages r)));
       (lit "errorCount", Num (ScanResult.errorCount r));
       (lit "warningCount", Num (ScanResult.warningCount r))].

Definition of_results (rs : list ScanResult.t) : value :=
  Arr (map of_ScanResult rs).

(** [JSON.stringify(results, null, 2)] *)
Definition stringify (rs : list ScanResult.t) : jsstring :=
  serialize [] (of_results rs).

End JSON.

(** ** The file system and the monad of [scan] *)

(** A path holds a regular file with its (decoded) content, or a
    directory. Keys are absolute, normalised paths. *)
Inductive Node :=
| File (content : jsstring)
| Dir.

Abbreviation FileSystem := (gmap jsstring Node).

(** How a call ends: with a value, or by throwing. *)
Inductive Completion (A : Type) :=
| Normal (a : A)
| Throw (e : Error).
Arguments Normal {A} a.
Arguments Throw {A} e.

Definition ENOENT (p : jsstring) : Error := mkError (JsString.lit "ENOENT") p.
Definition EISDIR (p : jsstring) : Error := mkError (JsString.lit "EISDIR") p.

(** The calls [scan] makes to the engines and to the disk, in order. *)
Inductive Event :=
| PrettierFormat (filePath text : jsstring)
| EslintLintFiles (target : LintFiles)
| EslintOutputFixes
| StylelintLint (target : LintFiles)
| MarkdownLint (target : LintFiles)
| PrettierExec (bin : jsstring) (args : list jsstring)
| OutputFile (reportPath content : jsstring).

(** The state [scan] runs in: the disk and the calls made so far. *)
Record St := mkSt {
  disk : FileSystem;
  trace : list Event
}.

(** A computation in state [St] that returns or throws. The state is kept
    when it throws: what was written stays written. *)
Definition M (A : Type) : Type := St -> Completion A * St.

Definition ret {A} (a : A) : M A := fun s => (Normal a, s).

Definition bind {A B} (m : M A) (k : A -> M B) : M B :=
  fun s =>
    match m s with
    | (Normal a, s') => k a s'
    | (Throw e, s') => (Throw e, s')
    end.

Definition throw {A} (e : Error) : M A := fun s => (Throw e, s).

(** [try { body } catch (e) { handler(e) }] *)
Definition try_catch {A} (body : M A) (handler : Error -> M A) : M A :=
  fun s =>
    match body s with
    | (Normal a, s') => (Normal a, s')
    | (Throw e, s') => handler e s'
    end.

Declare Scope scan_scope.
Delimit Scope scan_scope with scan.
Notation "x <- m ;; k" := (bind m (fun x => k))
  (at level 100, m at next level, right associativity) : scan_scope.
Notation "m ;; k" := (bind m (fun _ => k))
  (at level 100, right associativity) : scan_scope.
Local Open Scope scan_scope.

(** A call that only reads the disk. *)
Definition call_ro {A} (f : FileSystem -> Completion A) : M A :=
  fun s => (f (disk s), s).

(** A call that may write the disk. *)
Definition call_rw {A} (f : FileSystem -> Completion A * FileSystem) : M A :=
  fun s =>
    let '(c, d) := f (disk s) in
    (c, mkSt d (trace s)).

(** A call that touches nothing. *)
Definition call_pure {A} (c : Completion A) : M A :=
  fun s => (c, s).

Definition emit (ev : Event) : M unit :=
  fun s => (Normal tt, mkSt (disk s) (trace s ++ [ev])).

(** The two local variables [results] and [runErrors] of [scan]. *)
Record Locals := mkLocals {
  results : list ScanResult.t;
  runErrors : list Error
}.

(** [results = results.concat(more)] *)
Definition results_concat (l : Locals) (more : list ScanResult.t) : Locals :=
  mkLocals (results l ++ more) (runErrors l).

(** [runErrors.push(e)] *)
Definition runErrors_push (l : Locals) (e : Error) : Locals :=
  mkLocals (results l) (runErrors l ++ [e]).

(** [arr.forEach(f)] *)
Fixpoint forEach {A} (arr : list A) (f : A -> M unit) : M unit :=
  match arr with
  | [] => ret tt
  | x :: arr' => f x ;; forEach arr' f
  end.

(** [c && (await m)] as a statement. *)
Definition when (c : bool) (m : M unit) : M unit :=
  if c then m else ret tt.

(** ** The external collaborators *)

(** The options object handed to [glob.sync]. *)
Record GlobOptions := mkGlobOptions {
  glob_cwd : jsstring;
  glob_ignore : list jsstring
}.

(** The constants of [../utils/constants], which is not part of the
    sources at hand. *)
Class Constants := {
  PKG_NAME : jsstring;
  ESLINT_FILE_EXT : list jsstring;
  STYLELINT_FILE_EXT : list jsstring;
  MARKDOWN_LINT_FILE_EXT : list jsstring
}.

(** Node and the npm packages [glob] and [execa]. *)
Class Platform := {
  process_cwd : jsstring;
  __dirname : jsstring;
  require : jsstring -> FileSystem -> Completion JsObj;
  glob_sync : jsstring -> GlobOptions -> FileSystem -> Completion (list jsstring);
  execa_sync : jsstring -> list jsstring -> FileSystem -> Completion unit * FileSystem
}.

(** [../lints/eslint]; [V] is the type of the opaque values that travel
    between the calls of an engine (configurations, raw reports). *)
Class EslintAdapter (V : Type) := {
  eslint_getLintConfig : ScanOptions -> JsObj -> JsObj -> FileSystem -> Completion V;
  eslint_ESLint : V -> FileSystem -> Completion V;
  eslint_lintFiles : V -> LintFiles -> FileSystem -> Completion V * FileSystem;
  eslint_outputFixes : V -> FileSystem -> Completion unit * FileSystem;
  eslint_formatResults : V -> bool -> Completion (list ScanResult.t)
}.

(** [../lints/stylelint] *)
Class StylelintAdapter (V : Type) := {
  stylelint_getLintConfig : ScanOptions -> JsObj -> JsObj -> FileSystem -> Completion V;
  stylelint_lint : V -> LintFiles -> FileSystem -> Completion V * FileSystem;
  stylelint_data_results : V -> Completion V;
  stylelint_formatResults : V -> bool -> Completion (list ScanResult.t)
}.

(** [../lints/markdownlint] *)
Class MarkdownlintAdapter (V : Type) := {
  markdownLint_getLintConfig : ScanOptions -> FileSystem -> Completion V;
  markdownLint_lint : V -> LintFiles -> FileSystem -> Completion V * FileSystem;
  markdownLint_formatResults : V -> bool -> Completion (list ScanResult.t)
}.

(** ** [fs] *)

Section Fs.
Context `{!Platform}.

(** [path.resolve(...args)] in this process. *)
Definition resolve (args : list jsstring) : jsstring :=
  Path.resolve process_cwd args.

(** [fs.existsSync(p)] *)
Definition existsSync (p : jsstring) : M bool :=
  call_ro (fun d => Normal (bool_decide (is_Some (d !! resolve [p])))).

(** [fs.readFileSync(p, 'utf8')] *)
Definition readFileSync (p : jsstring) : M jsstring :=
  call_ro (fun d =>
    match d !! resolve [p] with
    | Some (File content) => Normal content
    | Some Dir => Throw (EISDIR p)
    | None => Throw (ENOENT p)
    end).

End Fs.

(** ** [scan] *)

Section Scan.
Context {V : Type}.
Context `{!Constants, !Platform}.
Context `{!EslintAdapter V, !StylelintAdapter V, !MarkdownlintAdapter V}.
Variable options : ScanOptions.

Import JsString.

(** The brace pattern over a list of extensions (lines 22 and 109). *)
Definition ext_pattern (ext : list jsstring) : jsstring :=
  lit "**/*.{" ++ join (lit ",") (map strip_leading_dot ext) ++ lit "}".

(** Lines 19-24. *)
Definition getLintFiles (ext : list jsstring) : LintFiles :=
  match files options with
  | Some files =>
      FileList (List.filter (fun name => includes ext (Path.extname name)) files)
  | None =>
      let pattern := ext_pattern ext in
      Pattern (resolve [cwd options; include options; pattern])
  end.

(** Lines 25-28. *)
Definition readConfigFile (pth : jsstring) : M JsObj :=
  let localPath := resolve [cwd options; pth] in
  found <- existsSync localPath ;;
  if found then call_ro (require localPath) else ret ∅.

(** Line 36: [(str) => str && !str.startsWith('#')] *)
Definition is_pattern_line (str : jsstring) : bool :=
  nonempty str && negb (startsWith (lit "#") str).

(** Lines 29-39. *)
Definition readIgnore (filepath : jsstring) : M (list jsstring) :=
  let localPath := resolve [cwd options; filepath] in
  found <- existsSync localPath ;;
  if found then
    text <- readFileSync localPath ;;
    let content := if nonempty text then text else [] in
    ret (List.filter is_pattern_line (map trim (split_lines content)))
  else ret [].

(** Lines 48-60, the pre-fix formatting pass. Each file is read at once;
    its rewrite waits on the promise of [prettier.resolveConfig] and is
    recorded as the event [PrettierFormat]. *)
Definition prettier_pass (config : JsObj)
    (eslintIgnore stylelintIgnore : list jsstring) : M unit :=
  when (fix_ options && is_not_false (prop config "enablePrettier"))
    (let files := getLintFiles (ESLINT_FILE_EXT ++ STYLELINT_FILE_EXT) in
     files <-
       match files with
       | Pattern p =>
           call_ro (glob_sync p
             (mkGlobOptions (cwd options) (eslintIgnore ++ stylelintIgnore)))
       | FileList names => ret names
       end ;;
     forEach files (fun filePath =>
       text <- readFileSync filePath ;;
       emit (PrettierFormat filePath text))).

(** Lines 64-68 up to the value appended to [results]. *)
Definition eslint_run (pkg config : JsObj) : M (list ScanResult.t) :=
  let files := getLintFiles ESLINT_FILE_EXT in
  cfg <- call_ro (eslint_getLintConfig options pkg config) ;;
  cli <- call_ro (eslint_ESLint cfg) ;;
  emit (EslintLintFiles files) ;;
  reports <- call_rw (eslint_lintFiles cli files) ;;
  when (fix_ options)
    (emit EslintOutputFixes ;; call_rw (eslint_outputFixes reports)) ;;
  call_pure (eslint_formatResults reports (quiet options)).

(** Lines 63-71. *)
Definition eslint_pass (pkg config : JsObj) (l : Locals) : M Locals :=
  try_catch
    (formatted <- eslint_run pkg config ;;
     ret (results_concat l formatted))
    (fun e => ret (runErrors_push l e)).

(** Lines 76-81 up to the value appended to [results]. *)
Definition stylelint_run (pkg config : JsObj) : M (list ScanResult.t) :=
  let files := getLintFiles STYLELINT_FILE_EXT in
  cfg <- call_ro (stylelint_getLintConfig options pkg config) ;;
  emit (StylelintLint files) ;;
  data <- call_rw (stylelint_lint cfg files) ;;
  data_results <- call_pure (stylelint_data_results data) ;;
  call_pure (stylelint_formatResults data_results (quiet options)).

(** Lines 74-85. *)
Definition stylelint_pass (pkg config : JsObj) (l : Locals) : M Locals :=
  if is_not_false (prop config "enableStylelint") then
    try_catch
      (formatted <- stylelint_run pkg config ;;
       ret (results_concat l formatted))
      (fun e => ret (runErrors_push l e))
  else ret l.

(** Lines 90-97 up to the value appended to [results]. *)
Definition markdown_run : M (list ScanResult.t) :=
  files <-
    match files options with
    | Some _ => ret (getLintFiles MARKDOWN_LINT_FILE_EXT)
    | None =>
        names <- call_ro (glob_sync (lit "**/*.md")
                   (mkGlobOptions (cwd options) [lit "node_modules/**"])) ;;
        ret (FileList names)
    end ;;
  cfg <- call_ro (markdownLint_getLintConfig options) ;;
  emit (MarkdownLint files) ;;
  data <- call_rw (markdownLint_lint cfg files) ;;
  call_pure (markdownLint_formatResults data (quiet options)).

(** Lines 88-101. *)
Definition markdown_pass (config : JsObj) (l : Locals) : M Locals :=
  if is_not_false (prop config "enableMarkdownlint") then
    try_catch
      (formatted <- markdown_run ;;
       ret (results_concat l formatted))
      (fun e => ret (runErrors_push l e))
  else ret l.

(** Lines 106-113, the body of the [try] of the post-fix formatter. *)
Definition prettier_exec : M unit :=
  let ext := ESLINT_FILE_EXT ++ STYLELINT_FILE_EXT in
  files <-
    match files options with
    | Some _ => ret (spread (getLintFiles ext))
    | None =>
        call_ro (glob_sync (ext_pattern ext)
          (mkGlobOptions (cwd options) [lit "node_modules/**"]))
    end ;;
  let bin := resolve [__dirname; lit "../../node_modules/.bin/prettier"] in
  let args := lit "-w" :: files in
  emit (PrettierExec bin args) ;;
  call_rw (execa_sync bin args).

(** Lines 104-117. *)
Definition prettier_format_pass (config : JsObj) (l : Locals) : M Locals :=
  if truthy (prop config "enablePrettier") && fix_ options then
    try_catch
      (prettier_exec ;; ret l)
      (fun e => ret (runErrors_push l e))
  else ret l.

(** Lines 120-123. The write is not awaited and its callback drops the
    error: it is recorded as the event [OutputFile]. *)
Definition output_report (results : list ScanResult.t) : M unit :=
  when (outputReport options)
    (let reportPath := resolve [process_cwd; lit "./" ++ PKG_NAME ++ lit "-report.json"] in
     emit (OutputFile reportPath (JSON.stringify results))).

(** Lines 125-130. *)
Definition report_of (l : Locals) : ScanReport.t :=
  ScanReport.mk
    (results l)
    (fold_left (fun count r => count + ScanResult.errorCount r) (results l) 0)
    (fold_left (fun count r => count + ScanResult.warningCount r) (results l) 0)
    (runErrors l).

(** Lines 40-60: the configuration, the ignore lists and the pre-fix
    formatting pass. Nothing here is inside a [try]. *)
Definition scan_setup : M (JsObj * JsObj) :=
  pkg <- readConfigFile (lit "package.json") ;;
  config <- readConfigFile (PKG_NAME ++ lit ".config.js") ;;
  eslintIgnore <- readIgnore (lit ".eslintignore") ;;
  stylelintIgnore <- readIgnore (lit ".stylelintignore") ;;
  prettier_pass config eslintIgnore stylelintIgnore ;;
  ret (pkg, config).

(** Lines 62-130: the guarded passes, the report file and the result. *)
Definition scan_passes (pkg config : JsObj) : M ScanReport.t :=
  l <- eslint_pass pkg config (mkLocals [] []) ;;
  l <- stylelint_pass pkg config l ;;
  l <- markdown_pass config l ;;
  l <- prettier_format_pass config l ;;
  output_report (results l) ;;
  ret (report_of l).

(** The default export of [scan.ts]. *)
Definition scan : M ScanReport.t :=
  loaded <- scan_setup ;;
  scan_passes (fst loaded) (snd loaded).

(** One invocation on a given disk. *)
Definition run_scan (d : FileSystem) : Completion ScanReport.t * St :=
  scan (mkSt d []).

End Scan.

(** ** Notions the specification speaks of *)

(** What a guarded pass adds to [results]: what its body returned, nothing
    if it threw. *)
Definition produced {A} (c : Completion (list A)) : list A :=
  match c with
  | Normal rs => rs
  | Throw _ => []
  end.

(** What a guarded pass adds to [runErrors]: the one value it threw. *)
Definition thrown {A} (c : Completion A) : list Error :=
  match c with
  | Normal _ => []
  | Throw e => [e]
  end.

(** The shape of a disk: which paths exist and of which kind, whatever the
    files contain. *)
Definition is_file (n : Node) : bool :=
  match n with File _ => true | Dir => false end.

Definition shape (d : FileSystem) : gmap jsstring bool := is_file <$> d.

(** Which engine a call of the trace went to, and with which files. *)
Inductive Tool := ScriptLint | StyleLint | MarkdownLinter.

Definition handed_to (tool : Tool) (ev : Event) : option LintFiles :=
  match tool, ev with
  | ScriptLint, EslintLintFiles t => Some t
  | StyleLint, StylelintLint t => Some t
  | MarkdownLinter, MarkdownLint t => Some t
  | _, _ => None
  end.

(** The file sets a run handed to an engine, in order. *)
Definition file_sets (tool : Tool) (tr : list Event) : list LintFiles :=
  omap (handed_to tool) tr.

(** The lines of a text as the specification has them: the pieces between
    line feeds. *)
Definition lines_of (content : jsstring) : list jsstring :=
  JsString.split_on JsString.LF content.

(** A piece between line feeds [y] against the line [x] that
    [split(/\r?\n/)] makes of it: the same, up to one carriage return at
    the end of the piece. *)
Definition same_line (x y : jsstring) : Prop :=
  y = x \/ y = x ++ [JsString.CR].

(** Hoare triples for [M]: from a state in [P], [m] returns [a] in a state
    of [Q a], or throws in a state of [E]. *)
Definition hoare {A} (P : St -> Prop) (m : M A)
    (Q : A -> St -> Prop) (E : St -> Prop) : Prop :=
  forall s, P s ->
    match m s with
    | (Normal a, s') => Q a s'
    | (Throw _, s') => E s'
    end.

(** The invariants used on [St]: the disk satisfies [D] and every call
    made so far satisfies [ok]. *)
Definition inv (D : FileSystem -> Prop) (ok : Event -> Prop) (s : St) : Prop :=
  D (disk s) /\ Forall ok (trace s).

(** The calls [scan] can make, for given options and a given loaded
    configuration, while the disk satisfies [D]. *)
Section Calls.
Context `{!Constants, !Platform}.
Variable options : ScanOptions.
Variable D : FileSystem -> Prop.
Variable config : JsObj.

Import JsString.

(** The entries of an explicit file list whose extension is in [ext]. *)
Definition with_extension (ext : list jsstring) (names : list jsstring)
  : list jsstring :=
  filter (fun name => Path.extname name ∈ ext) names.

Inductive may_emit : Event -> Prop :=
| emit_format filePath text :
    fix_ options = true ->
    (forall names, files options = Some names ->
       filePath ∈ with_extension (ESLINT_FILE_EXT ++ STYLELINT_FILE_EXT) names) ->
    may_emit (PrettierFormat filePath text)
| emit_eslint :
    may_emit (EslintLintFiles (getLintFiles options ESLINT_FILE_EXT))
| emit_fixes :
    fix_ options = true ->
    may_emit EslintOutputFixes
| emit_stylelint :
    is_not_false (prop config "enableStylelint") = true ->
    may_emit (StylelintLint (getLintFiles options STYLELINT_FILE_EXT))
| emit_markdown_list names :
    is_not_false (prop config "enableMarkdownlint") = true ->
    files options = Some names ->
    may_emit (MarkdownLint (getLintFiles options MARKDOWN_LINT_FILE_EXT))
| emit_markdown_glob d names :
    is_not_false (prop config "enableMarkdownlint") = true ->
    files options = None ->
    D d ->
    glob_sync (lit "**/*.md")
      (mkGlobOptions (cwd options) [lit "node_modules/**"]) d = Normal names ->
    may_emit (MarkdownLint (FileList names))
| emit_exec_list names :
    truthy (prop config "enablePrettier") = true ->
    fix_ options = true ->
    files options = Some names ->
    may_emit (PrettierExec
      (resolve [__dirname; lit "../../node_modules/.bin/prettier"])
      (lit "-w" :: with_extension (ESLINT_FILE_EXT ++ STYLELINT_FILE_EXT) names))
| emit_exec_glob names :
    truthy (prop config "enablePrettier") = true ->
    fix_ options = true ->
    files options = None ->
    may_emit (PrettierExec
      (resolve [__dirname; lit "../../node_modules/.bin/prettier"])
      (lit "-w" :: names))
| emit_report rs :
    outputReport options = true ->
    may_emit (OutputFile
      (resolve [process_cwd; lit "./" ++ PKG_NAME ++ lit "-report.json"])
      (JSON.stringify rs)).

End Calls.

(** The stage of [scan] a call belongs to: the pre-fix pass, the script
    linter, its fixes, the style linter, the markdown linter, the post-fix
    formatter, the report. *)
Definition phase (ev : Event) : nat :=
  match ev with
  | PrettierFormat _ _ => 0
  | EslintLintFiles _ => 1
  | EslintOutputFixes => 2
  | StylelintLint _ => 3
  | MarkdownLint _ => 4
  | PrettierExec _ _ => 5
  | OutputFile _ _ => 6
  end.

(** [a] may come before [b] in a run: [a] is of an earlier stage, or both
    are files of the pre-fix pass. *)
Definition before (a b : Event) : Prop :=
  (phase a < phase b)%nat \/ (phase a = 0%nat /\ phase b = 0%nat).

(** The calls made so far are in stage order and of stage [upto] at
    most. *)
Definition in_order (upto : nat) (s : St) : Prop :=
  StronglySorted before (trace s)
  /\ Forall (fun ev => (phase ev <= upto)%nat) (trace s).

(** The calls that ask a tool to rewrite files. *)
Definition rewrites_files (ev : Event) : bool :=
  match ev with
  | PrettierFormat _ _ | EslintOutputFixes | PrettierExec _ _ => true
  | _ => false
  end.

(** The platform [P] with another [require]. *)
Definition with_require (P : Platform)
    (r : jsstring -> FileSystem -> Completion JsObj) : Platform :=
  {| process_cwd := @process_cwd P;
     __dirname := @__dirname P;
     require := r;
     glob_sync := @glob_sync P;
     execa_sync := @execa_sync P |}.

(** ** Test doubles *)

Module Fixture.
Import JsString.

(** Sample constants: the script, style and markdown extension sets. *)
Definition constants : Constants := {|
  PKG_NAME := lit "f2elint";
  ESLINT_FILE_EXT := map lit [".js"; ".jsx"; ".ts"; ".tsx"; ".vue"]%string;
  STYLELINT_FILE_EXT := map lit [".css"; ".scss"; ".less"; ".acss"]%string;
  MARKDOWN_LINT_FILE_EXT := [lit ".md"]
|}.

(** The regular files of a disk that [ignore] does not list by name. *)
Definition regular_files (ignore : list jsstring) (d : FileSystem)
  : list jsstring :=
  omap (fun kv => if snd kv && negb (includes ignore (fst kv))
                  then Some (fst kv) else None)
       (map_to_list (shape d)).

(** A platform whose [require] loads [config] from every module, whose
    [glob] lists the regular files that are not ignored by name, and
    whose child processes succeed unless [exec_error] is given. *)
Definition platform (config : JsObj) (exec_error : option Error) : Platform := {|
  process_cwd := lit "/proj";
  __dirname := lit "/proj/node_modules/f2elint/lib/actions";
  require := fun _ _ => Normal config;
  glob_sync := fun _ opts d => Normal (regular_files (glob_ignore opts) d);
  execa_sync := fun _ _ d =>
    (match exec_error with Some e => Throw e | None => Normal tt end, d)
|}.

Definition finding (sev : Severity) (name : jsstring) : Finding :=
  mkFinding name (Some 1) None sev (lit "sample finding") (lit "sample-rule").

(** One result per file, with one error and, unless [quiet], one
    warning. *)
Definition result_for (quiet : bool) (name : jsstring) : ScanResult.t :=
  ScanResult.mk name
    (finding SevError name :: if quiet then [] else [finding SevWarning name])
    1 (if quiet then 0 else 1).

Definition raw_of (fail : option Error) (target : LintFiles)
  : Completion (list jsstring) :=
  match fail with
  | Some e => Throw e
  | None => Normal (spread target)
  end.

(** Engines that report on the files they are handed, or throw [fail]
    when asked to lint. *)
Definition eslint (fail : option Error) : EslintAdapter (list jsstring) := {|
  eslint_getLintConfig := fun _ _ _ _ => Normal [];
  eslint_ESLint := fun cfg _ => Normal cfg;
  eslint_lintFiles := fun _ target d => (raw_of fail target, d);
  eslint_outputFixes := fun _ d => (Normal tt, d);
  eslint_formatResults := fun reports quiet =>
    Normal (map (result_for quiet) reports)
|}.

Definition stylelint (fail : option Error) : StylelintAdapter (list jsstring) := {|
  stylelint_getLintConfig := fun _ _ _ _ => Normal [];
  stylelint_lint := fun _ target d => (raw_of fail target, d);
  stylelint_data_results := fun data => Normal data;
  stylelint_formatResults := fun data quiet =>
    Normal (map (result_for quiet) data)
|}.

Definition markdownlint (fail : option Error)
  : MarkdownlintAdapter (list jsstring) := {|
  markdownLint_getLintConfig := fun _ _ => Normal [];
  markdownLint_lint := fun _ target d => (raw_of fail target, d);
  markdownLint_formatResults := fun data quiet =>
    Normal (map (result_for quiet) data)
|}.

Definition boom (what : string) : Error := mkError (lit "Error") (lit what).

(** A project with its manifest and configuration module, one file of
    each kind and both ignore files. *)
Definition project : FileSystem :=
  list_to_map
    [ (lit "/proj", Dir);
      (lit "/proj/package.json", File (lit "{}"));
      (lit "/proj/f2elint.config.js", File (lit "module.exports = {}"));
      (lit "/proj/a.ts", File (lit "let a = 1"));
      (lit "/proj/b.css", File (lit "a { color: red }"));
      (lit "/proj/c.md", File (lit "# title"));
      (lit "/proj/.eslintignore", File (lit "dist/"));
      (lit "/proj/.stylelintignore", File (lit "coverage/")) ]%string.

(** An ignore file with comments, blank lines, padding and both kinds
    of line ends. *)
Definition ignore_sample : jsstring :=
  lit "# build output" ++ [13; 10]
  ++ lit "  dist/  " ++ [10]
  ++ [10]
  ++ lit "coverage/" ++ [13; 10]
  ++ [9] ++ lit "#tmp" ++ [10]
  ++ lit "*.min.js".

(** The project with that [.eslintignore] and no [.stylelintignore]. *)
Definition project_with_ignores : FileSystem :=
  <[lit "/proj/.eslintignore" := File ignore_sample]>
    (delete (lit "/proj/.stylelintignore") project).


(** The project with a directory in the place of [.eslintignore]. *)
Definition project_with_ignore_directory : FileSystem :=
  <[lit "/proj/.eslintignore" := Dir]> project.

(** A project without manifest, configuration module and ignore files. *)
Definition bare_project : FileSystem :=
  list_to_map
    [ (lit "/proj", Dir);
      (lit "/proj/a.ts", File (lit "let a = 1"));
      (lit "/proj/b.css", File (lit "a { color: red }"));
      (lit "/proj/c.md", File (lit "# title")) ]%string.

(** The lines of an ignore file, and the project whose [.eslintignore]
    holds them with Windows line ends. *)
Definition ignore_lines : list jsstring :=
  [lit "dist/"; lit "# build output"; lit "  coverage/ "; []; lit "*.min.js"].

Definition project_with_crlf : FileSystem :=
  <[lit "/proj/.eslintignore" := File (join [CR; LF] ignore_lines)]> project.

(** The explicit file list of the scenario of the specification. *)
Definition sample_files : option (list string) :=
  Some ["a.ts"; "b.css"; "c.md"]%string.

(** Options: [fix], [outputReport] and an optional explicit file list. *)
Definition options (fix_flag report : bool) (names : option (list string))
  : ScanOptions :=
  mkScanOptions (lit "/proj") (lit ".") (map lit <$> names) false fix_flag report.

(** The declared configuration object [{ key: value }]. *)
Definition config_with (key : string) (v : JsVal) : JsObj :=
  {[ lit key := v ]}.

(** A run of [scan] on the doubles. *)
Definition run (config : JsObj)
    (eslint_fail stylelint_fail markdown_fail exec_fail : option Error)
    (opts : ScanOptions) (d : FileSystem) : Completion ScanReport.t * St :=
  @run_scan (list jsstring) constants (platform config exec_fail)
    (eslint eslint_fail) (stylelint stylelint_fail) (markdownlint markdown_fail)
    opts d.

End Fixture.

(** * Verification *)

(** ** The monad and its triples *)

Section Triples.
Context {A B : Type}.
Implicit Types (P : St -> Prop) (E : St -> Prop).

Lemma bind_ret_l (a : A) (k : A -> M B) s : bind (ret a) k s = k a s.
Proof. reflexivity. Qed.

Lemma bind_normal (m : M A) (k : A -> M B) s a s' :
  m s = (Normal a, s') -> bind m k s = k a s'.
Proof. unfold bind. intros ->. reflexivity. Qed.

Lemma bind_throw (m : M A) (k : A -> M B) s e s' :
  m s = (Throw e, s') -> bind m k s = (Throw e, s').
Proof. unfold bind. intros ->. reflexivity. Qed.

Lemma hoare_ret P E (Q : A -> St -> Prop) (a : A) :
  (forall s, P s -> Q a s) -> hoare P (ret a) Q E.
Proof. intros HQ s Hs. simpl. auto. Qed.

Lemma hoare_bind P E (m : M A) (k : A -> M B)
    (R : A -> St -> Prop) (Q : B -> St -> Prop) :
  hoare P m R E ->
  (forall a, hoare (R a) (k a) Q E) ->
  hoare P (bind m k) Q E.
Proof.
  intros Hm Hk s Hs. unfold bind.
  specialize (Hm s Hs). destruct (m s) as [[a|e] s']; [|exact Hm].
  apply (Hk a s' Hm).
Qed.

Lemma hoare_try_catch P E E' (body : M A) (handler : Error -> M A)
    (Q : A -> St -> Prop) :
  hoare P body Q E' ->
  (forall e, hoare E' (handler e) Q E) ->
  hoare P (try_catch body handler) Q E.
Proof.
  intros Hb Hh s Hs. unfold try_catch.
  specialize (Hb s Hs). destruct (body s) as [[a|e] s']; [exact Hb|].
  apply (Hh e s' Hb).
Qed.

Lemma hoare_conseq P P' E E' (m : M A) (Q Q' : A -> St -> Prop) :
  hoare P' m Q' E' ->
  (forall s, P s -> P' s) ->
  (forall a s, Q' a s -> Q a s) ->
  (forall s, E' s -> E s) ->
  hoare P m Q E.
Proof.
  intros Hm HP HQ HE s Hs. specialize (Hm s (HP s Hs)).
  destruct (m s) as [[a|e] s']; auto.
Qed.

Lemma hoare_call_ro P (f : FileSystem -> Completion A) :
  hoare P (call_ro f) (fun a s => P s /\ f (disk s) = Normal a) P.
Proof. intros s Hs. unfold call_ro. destruct (f (disk s)); auto. Qed.

Lemma hoare_call_pure P (c : Completion A) :
  hoare P (call_pure c) (fun a s => P s /\ c = Normal a) P.
Proof. intros s Hs. unfold call_pure. destruct c; auto. Qed.

Lemma hoare_call_rw P P' (f : FileSystem -> Completion A * FileSystem) :
  (forall s, P s -> P' (mkSt (f (disk s)).2 (trace s))) ->
  hoare P (call_rw f) (fun _ => P') P'.
Proof.
  intros HP s Hs. unfold call_rw. specialize (HP s Hs).
  destruct (f (disk s)) as [[a|e] d]; exact HP.
Qed.

End Triples.

Lemma hoare_emit (P P' E : St -> Prop) (ev : Event) :
  (forall s, P s -> P' (mkSt (disk s) (trace s ++ [ev]))) ->
  hoare P (emit ev) (fun _ => P') E.
Proof. intros HP s Hs. simpl. auto. Qed.

Lemma hoare_when (I : St -> Prop) (c : bool) (m : M unit) :
  (c = true -> hoare I m (fun _ => I) I) ->
  hoare I (when c m) (fun _ => I) I.
Proof.
  intros Hm. destruct c; simpl; [auto|]. apply hoare_ret. auto.
Qed.

Lemma hoare_forEach {A} (I : St -> Prop) (arr : list A) (f : A -> M unit) :
  (forall x, x ∈ arr -> hoare I (f x) (fun _ => I) I) ->
  hoare I (forEach arr f) (fun _ => I) I.
Proof.
  induction arr as [|x arr IH]; intros Hf; simpl.
  - apply hoare_ret. auto.
  - eapply hoare_bind.
    + apply Hf. apply list_elem_of_here.
    + intros u. apply IH. intros y Hy. apply Hf.
      apply list_elem_of_further. exact Hy.
Qed.

(** ** Aggregation *)

Lemma fold_left_count (f : ScanResult.t -> N) (rs : list ScanResult.t) (acc : N) :
  fold_left (fun count r => count + f r) rs acc
  = acc + N.of_nat (sum_list_with (fun r => N.to_nat (f r)) rs).
Proof.
  revert acc. induction rs as [|r rs IH]; intros acc; simpl.
  - lia.
  - rewrite IH. lia.
Qed.

Lemma report_of_counts (l : Locals) :
  N.to_nat (ScanReport.errorCount (report_of l))
    = sum_list_with (fun r => N.to_nat (ScanResult.errorCount r))
        (ScanReport.results (report_of l))
  /\ N.to_nat (ScanReport.warningCount (report_of l))
    = sum_list_with (fun r => N.to_nat (ScanResult.warningCount r))
        (ScanReport.results (report_of l)).
Proof.
  unfold report_of. simpl. rewrite !fold_left_count. lia.
Qed.

Section ScanFacts.
Context {V : Type}.
Context `{!Constants, !Platform}.
Context `{!EslintAdapter V, !StylelintAdapter V, !MarkdownlintAdapter V}.
Variable options : ScanOptions.

(** Whatever [scan_passes] returns was built by [report_of], and it
    always returns. *)
Lemma scan_passes_returns pkg config s :
  exists l s', scan_passes options pkg config s = (Normal (report_of l), s').
Proof.
  unfold scan_passes, bind.
  destruct (eslint_pass options pkg config _ s) as [[l1|e1] s1] eqn:H1.
  2:{ unfold eslint_pass, try_catch in H1.
      destruct (bind _ _ s) as [[?|?] ?]; discriminate. }
  destruct (stylelint_pass options pkg config l1 s1) as [[l2|e2] s2] eqn:H2.
  2:{ unfold stylelint_pass, try_catch in H2.
      destruct (is_not_false _); [|discriminate].
      destruct (bind _ _ s1) as [[?|?] ?]; discriminate. }
  destruct (markdown_pass options config l2 s2) as [[l3|e3] s3] eqn:H3.
  2:{ unfold markdown_pass, try_catch in H3.
      destruct (is_not_false _); [|discriminate].
      destruct (bind _ _ s2) as [[?|?] ?]; discriminate. }
  destruct (prettier_format_pass options config l3 s3) as [[l4|e4] s4] eqn:H4.
  2:{ unfold prettier_format_pass, try_catch in H4.
      destruct (_ && _); [|discriminate].
      destruct (bind _ _ s3) as [[?|?] ?]; discriminate. }
  unfold output_report, when. destruct (outputReport options); simpl; eauto.
Qed.

Lemma scan_report_of s report s' :
  scan options s = (Normal report, s') -> exists l, report = report_of l.
Proof.
  unfold scan, bind. destruct (scan_setup options s) as [[loaded|e] s1]; [|discriminate].
  destruct (scan_passes_returns (fst loaded) (snd loaded) s1) as (l & s2 & ->).
  intros [= <- _]. eauto.
Qed.

(** C2: the [errorCount] and the [warningCount] of every returned
    [ScanReport] are the sums of the [errorCount]s and of the
    [warningCount]s of the [ScanResult]s in its [results]: they are
    computed from that sequence when the report is built. *)
Theorem report_counts_are_sums s report s' :
  scan options s = (Normal report, s') ->
  N.to_nat (ScanReport.errorCount report)
    = sum_list_with (fun r => N.to_nat (ScanResult.errorCount r))
        (ScanReport.results report)
  /\ N.to_nat (ScanReport.warningCount report)
    = sum_list_with (fun r => N.to_nat (ScanResult.warningCount r))
        (ScanReport.results report).
Proof.
  intros Hscan. destruct (scan_report_of _ _ _ Hscan) as [l ->].
  apply report_of_counts.
Qed.

End ScanFacts.

(** ** Failure isolation *)

Section Isolation.
Context {V : Type}.
Context `{!Constants, !Platform}.
Context `{!EslintAdapter V, !StylelintAdapter V, !MarkdownlintAdapter V}.
Variable options : ScanOptions.

(** A guarded pass never throws: it returns the locals with what its
    body produced appended to [results], or with the one value its body
    threw appended to [runErrors]. *)
Lemma guarded_pass (body : M (list ScanResult.t)) (l : Locals) s :
  try_catch (formatted <- body ;; ret (results_concat l formatted))
            (fun e => ret (runErrors_push l e)) s
  = (Normal (mkLocals (results l ++ produced (body s).1)
                      (runErrors l ++ thrown (body s).1)),
     (body s).2).
Proof.
  unfold try_catch, bind, ret, results_concat, runErrors_push.
  destruct (body s) as [[rs|e] s']; simpl; rewrite ?app_nil_r; reflexivity.
Qed.

Lemma guarded_exec (body : M unit) (l : Locals) s :
  try_catch (body ;; ret l) (fun e => ret (runErrors_push l e)) s
  = (Normal (mkLocals (results l) (runErrors l ++ thrown (body s).1)),
     (body s).2).
Proof.
  unfold try_catch, bind, ret, runErrors_push.
  destruct (body s) as [[[]|e] s']; simpl; rewrite ?app_nil_r;
    destruct l; reflexivity.
Qed.

(** What the guarded passes return, in terms of what their four bodies
    do, each from the state the previous one left. *)
Lemma scan_passes_outcome (s1 : St) (pkg config : JsObj) :
  let r1 := eslint_run options pkg config s1 in
  let r2 := if is_not_false (prop config "enableStylelint")
            then stylelint_run options pkg config r1.2
            else (Normal [], r1.2) in
  let r3 := if is_not_false (prop config "enableMarkdownlint")
            then markdown_run options r2.2
            else (Normal [], r2.2) in
  let r4 := if truthy (prop config "enablePrettier") && fix_ options
            then prettier_exec options r3.2
            else (Normal tt, r3.2) in
  exists report s',
    scan_passes options pkg config s1 = (Normal report, s')
    /\ ScanReport.results report
       = produced r1.1 ++ produced r2.1 ++ produced r3.1
    /\ ScanReport.runErrors report
       = thrown r1.1 ++ thrown r2.1 ++ thrown r3.1 ++ thrown r4.1.
Proof.
  intros r1 r2 r3 r4.
  unfold scan_passes.
  unfold eslint_pass. erewrite bind_normal by apply guarded_pass.
  fold r1. simpl results; simpl runErrors.
  set (l1 := mkLocals _ _).
  assert (Hl2 : stylelint_pass options pkg config l1 r1.2
                = (Normal (mkLocals (results l1 ++ produced r2.1)
                                    (runErrors l1 ++ thrown r2.1)), r2.2)).
  { unfold stylelint_pass, r2.
    destruct (is_not_false (prop config "enableStylelint")).
    - apply guarded_pass.
    - unfold l1. simpl. rewrite !app_nil_r. reflexivity. }
  rewrite (bind_normal _ _ _ _ _ Hl2). set (l2 := mkLocals _ _).
  assert (Hl3 : markdown_pass options config l2 r2.2
                = (Normal (mkLocals (results l2 ++ produced r3.1)
                                    (runErrors l2 ++ thrown r3.1)), r3.2)).
  { unfold markdown_pass, r3.
    destruct (is_not_false (prop config "enableMarkdownlint")).
    - apply guarded_pass.
    - unfold l2. simpl. rewrite !app_nil_r. reflexivity. }
  rewrite (bind_normal _ _ _ _ _ Hl3). set (l3 := mkLocals _ _).
  assert (Hl4 : prettier_format_pass options config l3 r3.2
                = (Normal (mkLocals (results l3)
                                    (runErrors l3 ++ thrown r4.1)), r4.2)).
  { unfold prettier_format_pass, r4.
    destruct (truthy (prop config "enablePrettier") && fix_ options).
    - apply guarded_exec.
    - unfold l3. simpl. rewrite !app_nil_r. reflexivity. }
  rewrite (bind_normal _ _ _ _ _ Hl4). set (l4 := mkLocals _ _).
  unfold output_report, when, bind.
  destruct (outputReport options); simpl;
    (do 2 eexists; split; [reflexivity|]);
    unfold l4, l3, l2, l1; simpl; rewrite <- ?app_assoc; auto.
Qed.

(** C1: once the configuration is loaded and the pre-fix pass is over,
    [scan] returns a report whatever the four guarded passes (script
    lint, style lint, markdown lint, post-fix formatter) do: its
    [results] are the results of the passes that returned, in order, and
    its [runErrors] hold exactly one entry for each pass that threw, in
    order. Each pass starts in the state the previous one left, thrown
    or not. *)
Theorem scan_isolates_failing_passes (s0 s1 : St) (pkg config : JsObj) :
  scan_setup options s0 = (Normal (pkg, config), s1) ->
  let r1 := eslint_run options pkg config s1 in
  let r2 := if is_not_false (prop config "enableStylelint")
            then stylelint_run options pkg config r1.2
            else (Normal [], r1.2) in
  let r3 := if is_not_false (prop config "enableMarkdownlint")
            then markdown_run options r2.2
            else (Normal [], r2.2) in
  let r4 := if truthy (prop config "enablePrettier") && fix_ options
            then prettier_exec options r3.2
            else (Normal tt, r3.2) in
  exists report s',
    scan options s0 = (Normal report, s')
    /\ ScanReport.results report
       = produced r1.1 ++ produced r2.1 ++ produced r3.1
    /\ ScanReport.runErrors report
       = thrown r1.1 ++ thrown r2.1 ++ thrown r3.1 ++ thrown r4.1.
Proof.
  intros Hsetup r1 r2 r3 r4.
  destruct (scan_passes_outcome s1 pkg config)
    as (report & s' & Hpasses & Hres & Herr).
  exists report, s'. split; [|split; assumption].
  unfold scan. rewrite (bind_normal _ _ _ _ _ Hsetup). exact Hpasses.
Qed.

End Isolation.

(** ** The calls a run makes *)

Lemma inv_emit D (ok : Event -> Prop) s ev :
  inv D ok s -> ok ev -> inv D ok (mkSt (disk s) (trace s ++ [ev])).
Proof.
  intros [HD Hok] Hev. split; [exact HD|]. simpl.
  apply Forall_app. split; [exact Hok|]. constructor; [exact Hev|constructor].
Qed.

Lemma inv_disk (D D' : FileSystem -> Prop) (ok : Event -> Prop) s d :
  inv D ok s -> D' d -> inv D' ok (mkSt d (trace s)).
Proof. intros [_ Hok] Hd. split; assumption. Qed.

Lemma inv_weaken (D : FileSystem -> Prop) (ok : Event -> Prop) s :
  inv D ok s -> inv (fun _ => True) ok s.
Proof. intros [_ Hok]. split; [exact I|exact Hok]. Qed.

(** A computation that leaves the state as it found it keeps every
    invariant. *)
Lemma hoare_unchanged {A} (I : St -> Prop) (m : M A) :
  (forall s, (m s).2 = s) -> hoare I m (fun _ => I) I.
Proof.
  intros Hm s Hs. specialize (Hm s).
  destruct (m s) as [[a|e] s']; simpl in Hm; subst s'; exact Hs.
Qed.

Lemma includes_elem_of (arr : list jsstring) (x : jsstring) :
  JsString.includes arr x = true <-> x ∈ arr.
Proof.
  unfold JsString.includes, JsString.eqb. rewrite existsb_exists. split.
  - intros (y & Hy & Heq). apply bool_decide_eq_true in Heq. subst y.
    apply list_elem_of_In. exact Hy.
  - intros Hx. exists x. split; [apply list_elem_of_In; exact Hx|].
    apply bool_decide_eq_true. reflexivity.
Qed.

Lemma filter_with_extension (ext names : list jsstring) :
  List.filter (fun name => JsString.includes ext (Path.extname name)) names
  = with_extension ext names.
Proof.
  unfold with_extension. induction names as [|name names IH]; [reflexivity|].
  simpl. rewrite filter_cons, IH.
  destruct (JsString.includes ext (Path.extname name)) eqn:Hin.
  - apply includes_elem_of in Hin. rewrite decide_True by exact Hin. reflexivity.
  - rewrite decide_False; [reflexivity|].
    intros Hx. apply includes_elem_of in Hx. congruence.
Qed.

Section Trace.
Context {V : Type}.
Context `{!Constants, !Platform}.
Context `{!EslintAdapter V, !StylelintAdapter V, !MarkdownlintAdapter V}.
Variable options : ScanOptions.

Lemma getLintFiles_list ext names :
  files options = Some names ->
  getLintFiles options ext = FileList (with_extension ext names).
Proof.
  intros Hf. unfold getLintFiles. rewrite Hf, filter_with_extension. reflexivity.
Qed.

Lemma getLintFiles_pattern ext :
  files options = None ->
  getLintFiles options ext
  = Pattern (resolve [cwd options; include options; ext_pattern ext]).
Proof. intros Hf. unfold getLintFiles. rewrite Hf. reflexivity. Qed.

Lemma existsSync_state p s : (existsSync p s).2 = s.
Proof. reflexivity. Qed.

Lemma readFileSync_state p s : (readFileSync p s).2 = s.
Proof. reflexivity. Qed.

Lemma readConfigFile_state pth s : (readConfigFile options pth s).2 = s.
Proof.
  unfold readConfigFile, bind, existsSync, call_ro. simpl.
  destruct (bool_decide _); reflexivity.
Qed.

Lemma readIgnore_state filepath s : (readIgnore options filepath s).2 = s.
Proof.
  unfold readIgnore, bind, existsSync, readFileSync, call_ro. simpl.
  destruct (bool_decide _); [|reflexivity].
  destruct (disk s !! _) as [[content|]|]; reflexivity.
Qed.

Section Invariant.
Variable D : FileSystem -> Prop.
Variable ok : Event -> Prop.

Let I := inv D ok.

(** The pre-fix pass only reads the disk, and formats files of the
    explicit list, if there is one. *)
Lemma prettier_pass_inv config eslintIgnore stylelintIgnore :
  (forall filePath text,
     fix_ options = true ->
     (forall names, files options = Some names ->
        filePath ∈ with_extension (ESLINT_FILE_EXT ++ STYLELINT_FILE_EXT) names) ->
     ok (PrettierFormat filePath text)) ->
  hoare I (prettier_pass options config eslintIgnore stylelintIgnore)
    (fun _ => I) I.
Proof.
  intros Hok. unfold prettier_pass. apply hoare_when. intros Hc.
  apply andb_true_iff in Hc as [Hfix _].
  eapply hoare_bind with
    (R := fun fl s => I s /\ forall names, files options = Some names ->
            fl = with_extension (ESLINT_FILE_EXT ++ STYLELINT_FILE_EXT) names).
  - unfold getLintFiles.
    destruct (files options) as [names|] eqn:Hf.
    + apply hoare_ret. intros s Hs. split; [exact Hs|].
      intros names' [= <-]. apply filter_with_extension.
    + eapply hoare_conseq; [apply (hoare_call_ro I)|auto| |auto].
      intros a s [Hs _]. split; [exact Hs|]. intros names' [=].
  - intros fl. intros s [Hs Hfl]. revert s Hs.
    change (hoare I (forEach fl (fun filePath =>
              text <- readFileSync filePath ;;
              emit (PrettierFormat filePath text))) (fun _ => I) I).
    apply hoare_forEach. intros filePath Hin.
    eapply hoare_bind; [apply hoare_unchanged, readFileSync_state|].
    intros text. apply hoare_emit. intros s Hs. apply inv_emit; [exact Hs|].
    apply Hok; [exact Hfix|]. intros names Hn. rewrite <- (Hfl names Hn).
    exact Hin.
Qed.

Lemma scan_setup_inv :
  (forall filePath text,
     fix_ options = true ->
     (forall names, files options = Some names ->
        filePath ∈ with_extension (ESLINT_FILE_EXT ++ STYLELINT_FILE_EXT) names) ->
     ok (PrettierFormat filePath text)) ->
  hoare I (scan_setup options) (fun _ => I) I.
Proof.
  intros Hok. unfold scan_setup.
  eapply hoare_bind; [apply hoare_unchanged, readConfigFile_state|intros pkg].
  eapply hoare_bind; [apply hoare_unchanged, readConfigFile_state|intros config].
  eapply hoare_bind; [apply hoare_unchanged, readIgnore_state|intros i1].
  eapply hoare_bind; [apply hoare_unchanged, readIgnore_state|intros i2].
  eapply hoare_bind; [apply prettier_pass_inv, Hok|intros u].
  apply hoare_ret. auto.
Qed.

End Invariant.

End Trace.

Ltac hoare_seq := eapply hoare_bind; [ | intros ? ].
Ltac hoare_skip := apply hoare_unchanged; intros ?; reflexivity.

Section PassCalls.
Context {V : Type}.
Context `{!Constants, !Platform}.
Context `{!EslintAdapter V, !StylelintAdapter V, !MarkdownlintAdapter V}.
Variable options : ScanOptions.
Variable D : FileSystem -> Prop.
Variable config : JsObj.

(** The engines that run before the markdown glob keep [D]. *)
Hypothesis eslint_lintFiles_keeps :
  forall v target d, D d -> D (eslint_lintFiles v target d).2.
Hypothesis eslint_outputFixes_keeps :
  forall v d, D d -> D (eslint_outputFixes v d).2.
Hypothesis stylelint_lint_keeps :
  forall v target d, D d -> D (stylelint_lint v target d).2.

Let ok := may_emit options D config.
Let I := inv D ok.
Let I' := inv (fun _ => True) ok.

Lemma eslint_run_inv pkg :
  hoare I (eslint_run options pkg config) (fun _ => I) I.
Proof.
  unfold eslint_run.
  hoare_seq; [hoare_skip|]. hoare_seq; [hoare_skip|].
  hoare_seq.
  { apply hoare_emit. intros s Hs. apply inv_emit; [exact Hs|]. constructor. }
  hoare_seq.
  { apply hoare_call_rw. intros s Hs. eapply inv_disk; [exact Hs|].
    apply eslint_lintFiles_keeps, Hs. }
  hoare_seq; [|hoare_skip].
  apply hoare_when. intros Hfix. hoare_seq.
  { apply hoare_emit. intros s Hs. apply inv_emit; [exact Hs|].
    constructor. exact Hfix. }
  apply hoare_call_rw. intros s Hs. eapply inv_disk; [exact Hs|].
  apply eslint_outputFixes_keeps, Hs.
Qed.

Lemma stylelint_run_inv pkg :
  is_not_false (prop config "enableStylelint") = true ->
  hoare I (stylelint_run options pkg config) (fun _ => I) I.
Proof.
  intros Hon. unfold stylelint_run.
  hoare_seq; [hoare_skip|].
  hoare_seq.
  { apply hoare_emit. intros s Hs. apply inv_emit; [exact Hs|].
    constructor. exact Hon. }
  hoare_seq.
  { apply hoare_call_rw. intros s Hs. eapply inv_disk; [exact Hs|].
    apply stylelint_lint_keeps, Hs. }
  hoare_seq; hoare_skip.
Qed.

Lemma markdown_run_inv :
  is_not_false (prop config "enableMarkdownlint") = true ->
  hoare I (markdown_run options) (fun _ => I') I'.
Proof.
  intros Hon. unfold markdown_run.
  eapply hoare_bind with (R := fun target s => I s /\ ok (MarkdownLint target)).
  - destruct (files options) as [names|] eqn:Hf.
    + apply hoare_ret. intros s Hs. split; [exact Hs|].
      eapply emit_markdown_list; eassumption.
    + hoare_seq.
      * eapply hoare_conseq; [apply (hoare_call_ro I)| | |];
          [intros s Hs; exact Hs|intros a s Hs; exact Hs|].
        intros s Hs. apply (inv_weaken _ _ _ Hs).
      * apply hoare_ret. intros s [Hs Hglob].
        split; [exact Hs|].
        eapply emit_markdown_glob; [exact Hon|exact Hf|apply Hs|exact Hglob].
  - intros target.
    eapply hoare_bind with (R := fun _ s => I s /\ ok (MarkdownLint target)).
    { eapply hoare_conseq; [apply hoare_unchanged; intros ?; reflexivity| | |];
        [intros s Hs; exact Hs|intros a s Hs; exact Hs|].
      intros s [Hs _]. apply (inv_weaken _ _ _ Hs). }
    intros cfg. eapply hoare_bind with (R := fun _ => I').
    { apply hoare_emit. intros s [Hs Hok]. apply inv_weaken with (D := D).
      apply inv_emit; assumption. }
    intros u. hoare_seq; [|hoare_skip].
    apply hoare_call_rw. intros s Hs. eapply inv_disk; [exact Hs|exact Logic.I].
Qed.

Lemma prettier_exec_inv :
  truthy (prop config "enablePrettier") = true ->
  fix_ options = true ->
  hoare I' (prettier_exec options) (fun _ => I') I'.
Proof.
  intros Hon Hfix. unfold prettier_exec.
  eapply hoare_bind with
    (R := fun names s => I' s /\
       ok (PrettierExec
             (resolve [__dirname; JsString.lit "../../node_modules/.bin/prettier"])
             (JsString.lit "-w" :: names))).
  - destruct (files options) as [names|] eqn:Hf.
    + apply hoare_ret. intros s Hs. split; [exact Hs|].
      rewrite (getLintFiles_list _ _ _ Hf). simpl.
      eapply emit_exec_list; eassumption.
    + eapply hoare_conseq; [apply (hoare_call_ro I')| | |];
        [intros s Hs; exact Hs| |intros s Hs; exact Hs].
      intros names s [Hs _]. split; [exact Hs|].
      eapply emit_exec_glob; eassumption.
  - intros names. eapply hoare_bind with (R := fun _ => I').
    + apply hoare_emit. intros s [Hs Hok]. apply inv_emit; assumption.
    + intros u. apply hoare_call_rw. intros s Hs.
      eapply inv_disk; [exact Hs|exact Logic.I].
Qed.

(** A guarded block keeps what its body keeps, and never throws. *)
Lemma guarded_inv {A B} (J J' E : St -> Prop) (body : M A) (k : A -> M B)
    (h : Error -> B) :
  hoare J body (fun _ => J') J' ->
  (forall a, hoare J' (k a) (fun _ => J') J') ->
  hoare J (try_catch (a <- body ;; k a) (fun e => ret (h e)))
    (fun _ => J') E.
Proof.
  intros Hb Hk. eapply hoare_try_catch with (E' := J').
  - hoare_seq; [exact Hb|]. apply Hk.
  - intros e. apply hoare_ret. auto.
Qed.

(** Every call of the guarded passes is one of [may_emit]. *)
Lemma scan_passes_calls pkg :
  hoare I (scan_passes options pkg config) (fun _ => I') I'.
Proof.
  unfold scan_passes.
  hoare_seq.
  { unfold eslint_pass. apply guarded_inv with (J' := I).
    - apply eslint_run_inv.
    - intros ?. apply hoare_ret. auto. }
  hoare_seq.
  { unfold stylelint_pass.
    destruct (is_not_false (prop config "enableStylelint")) eqn:Hon.
    - apply guarded_inv with (J' := I).
      + apply stylelint_run_inv, Hon.
      + intros ?. apply hoare_ret. auto.
    - apply hoare_ret. auto. }
  hoare_seq.
  { unfold markdown_pass.
    destruct (is_not_false (prop config "enableMarkdownlint")) eqn:Hon.
    - apply guarded_inv with (J' := I').
      + apply markdown_run_inv, Hon.
      + intros ?. apply hoare_ret. auto.
    - apply hoare_ret. intros s Hs. apply (inv_weaken _ _ _ Hs). }
  hoare_seq.
  { unfold prettier_format_pass.
    destruct (truthy (prop config "enablePrettier") && fix_ options) eqn:Hon.
    - apply andb_true_iff in Hon as [Hon Hfix].
      apply guarded_inv with (J' := I').
      + apply prettier_exec_inv; assumption.
      + intros ?. apply hoare_ret. auto.
    - apply hoare_ret. auto. }
  hoare_seq.
  { unfold output_report. apply hoare_when. intros Hout.
    apply hoare_emit. intros s Hs. apply inv_emit; [exact Hs|].
    constructor. exact Hout. }
  apply hoare_ret. auto.
Qed.

End PassCalls.

Section RunCalls.
Context {V : Type}.
Context `{!Constants, !Platform}.
Context `{!EslintAdapter V, !StylelintAdapter V, !MarkdownlintAdapter V}.
Variable options : ScanOptions.
Variable D : FileSystem -> Prop.

Hypothesis eslint_lintFiles_keeps :
  forall v target d, D d -> D (eslint_lintFiles v target d).2.
Hypothesis eslint_outputFixes_keeps :
  forall v d, D d -> D (eslint_outputFixes v d).2.
Hypothesis stylelint_lint_keeps :
  forall v target d, D d -> D (stylelint_lint v target d).2.

(** Every call of a run is one of [may_emit], for the configuration the
    run loaded. *)
Lemma run_scan_calls d :
  D d ->
  exists config,
    (forall pkg config' s1,
       scan_setup options (mkSt d []) = (Normal (pkg, config'), s1) ->
       config' = config)
    /\ Forall (may_emit options D config) (trace (run_scan options d).2).
Proof.
  intros Hd. unfold run_scan, scan, bind.
  destruct (scan_setup options (mkSt d [])) as [[[pkg config]|e] s1] eqn:Hsetup.
  - exists config. split; [intros ? ? ? [= _ <- _]; reflexivity|].
    assert (Hs1 : inv D (may_emit options D config) s1).
    { pose proof (scan_setup_inv options D (may_emit options D config)) as Hinv.
      specialize (Hinv (emit_format options D config) (mkSt d [])).
      rewrite Hsetup in Hinv. apply Hinv. split; [exact Hd|constructor]. }
    pose proof (scan_passes_calls options D config eslint_lintFiles_keeps
                  eslint_outputFixes_keeps stylelint_lint_keeps pkg s1 Hs1) as Hp.
    simpl fst; simpl snd.
    destruct (scan_passes options pkg config s1) as [[r|e] s2]; apply Hp.
  - exists ∅. split; [intros ? ? ? [=]|].
    pose proof (scan_setup_inv options D (may_emit options D ∅)) as Hinv.
    specialize (Hinv (emit_format options D ∅) (mkSt d [])).
    rewrite Hsetup in Hinv. apply Hinv. split; [exact Hd|constructor].
Qed.

End RunCalls.

(** The calls of a run, with no assumption on the engines. *)
Lemma run_scan_calls_any {V : Type}
    `{!Constants, !Platform}
    `{!EslintAdapter V, !StylelintAdapter V, !MarkdownlintAdapter V}
    (options : ScanOptions) (d : FileSystem) :
  exists config,
    (forall pkg config' s1,
       scan_setup options (mkSt d []) = (Normal (pkg, config'), s1) ->
       config' = config)
    /\ Forall (may_emit options (fun _ => True) config)
         (trace (run_scan options d).2).
Proof. apply run_scan_calls; auto. Qed.

Lemma elem_of_file_sets tool t tr :
  t ∈ file_sets tool tr <-> exists ev, ev ∈ tr /\ handed_to tool ev = Some t.
Proof. unfold file_sets. apply list_elem_of_omap. Qed.

(** ** File sets per tool *)

Section FileSets.
Context {V : Type}.
Context `{!Constants, !Platform}.
Context `{!EslintAdapter V, !StylelintAdapter V, !MarkdownlintAdapter V}.
Variable options : ScanOptions.




End FileSets.

(** ** The style-lint toggle *)

Section StylelintToggle.
Context {V : Type}.
Context `{!Constants, !Platform}.
Context `{!EslintAdapter V, !MarkdownlintAdapter V}.
Variable options : ScanOptions.

(** C7: when the loaded configuration has [enableStylelint: false], the
    style linter is never called; the run (report, disk and calls) is
    the same whatever the style-lint adapter is; and the report is built
    from the script-lint, markdown-lint and post-fix formatter passes
    alone: no result and no run error comes from a style-lint pass. *)
Theorem disabled_stylelint_leaves_no_mark
    (S S' : StylelintAdapter V) d pkg config s1 :
  scan_setup options (mkSt d []) = (Normal (pkg, config), s1) ->
  prop config "enableStylelint" = JBool false ->
  let r1 := eslint_run options pkg config s1 in
  let r3 := if is_not_false (prop config "enableMarkdownlint")
            then markdown_run options r1.2
            else (Normal [], r1.2) in
  let r4 := if truthy (prop config "enablePrettier") && fix_ options
            then prettier_exec options r3.2
            else (Normal tt, r3.2) in
  file_sets StyleLint (trace (@run_scan V _ _ _ S _ options d).2) = []
  /\ @run_scan V _ _ _ S _ options d = @run_scan V _ _ _ S' _ options d
  /\ exists report s',
       @run_scan V _ _ _ S _ options d = (Normal report, s')
       /\ ScanReport.results report = produced r1.1 ++ produced r3.1
       /\ ScanReport.runErrors report
          = thrown r1.1 ++ thrown r3.1 ++ thrown r4.1.
Proof.
  intros Hsetup Hoff r1 r3 r4. split; [|split].
  - apply elem_of_nil_inv. intros t (ev & Hev & Hh)%elem_of_file_sets.
    destruct (@run_scan_calls_any V _ _ _ S _ options d) as (config' & Hc & Hcalls).
    rewrite <- (Hc _ _ _ Hsetup) in Hcalls.
    rewrite Forall_forall in Hcalls. apply Hcalls in Hev.
    destruct Hev; simpl in Hh; try discriminate.
    match goal with Hon : is_not_false _ = true |- _ =>
      rewrite Hoff in Hon; discriminate end.
  - unfold run_scan, scan.
    rewrite !(bind_normal _ _ _ _ _ Hsetup). simpl fst; simpl snd.
    unfold scan_passes, stylelint_pass. rewrite Hoff. reflexivity.
  - destruct (@scan_passes_outcome V _ _ _ S _ options s1 pkg config)
      as (report & s' & Hrun & Hres & Herr).
    rewrite Hoff in Hres, Herr. simpl in Hres, Herr.
    exists report, s'. split; [|split; assumption].
    unfold run_scan, scan. rewrite (bind_normal _ _ _ _ _ Hsetup). exact Hrun.
Qed.

End StylelintToggle.

(** ** The ignore files *)


Section IgnoreFiles.
Context {V : Type}.
Context `{!Constants, !Platform}.
Context `{!EslintAdapter V, !StylelintAdapter V, !MarkdownlintAdapter V}.
Variable options : ScanOptions.

(** What [glob] lists depends on which paths exist, not on what the
    files contain. *)
Hypothesis glob_by_shape :
  forall pattern opts d d',
    shape d = shape d' -> glob_sync pattern opts d = glob_sync pattern opts d'.

(** The linters that run before the markdown glob may rewrite files but
    neither create nor delete any. *)
Hypothesis eslint_lintFiles_shape :
  forall v target d, shape (eslint_lintFiles v target d).2 = shape d.
Hypothesis eslint_outputFixes_shape :
  forall v d, shape (eslint_outputFixes v d).2 = shape d.
Hypothesis stylelint_lint_shape :
  forall v target d, shape (stylelint_lint v target d).2 = shape d.


End IgnoreFiles.

(** ** The formatter toggle *)

Section PrettierToggle.
Context {V : Type}.
Context `{!Constants, !Platform}.
Context `{!EslintAdapter V, !StylelintAdapter V, !MarkdownlintAdapter V}.
Variable options : ScanOptions.

(** Line 48 reads the toggle with [!== false]: an absent key enables the
    pre-fix pass. *)
Lemma prettier_pass_runs_by_default config eslintIgnore stylelintIgnore names :
  fix_ options = true ->
  config !! JsString.lit "enablePrettier" = None ->
  files options = Some names ->
  prettier_pass options config eslintIgnore stylelintIgnore
  = forEach (with_extension (ESLINT_FILE_EXT ++ STYLELINT_FILE_EXT) names)
      (fun filePath =>
         text <- readFileSync filePath ;;
         emit (PrettierFormat filePath text)).
Proof.
  intros Hfix Hkey Hf. unfold prettier_pass, prop. rewrite Hfix, Hkey. simpl.
  rewrite (getLintFiles_list _ _ _ Hf). reflexivity.
Qed.

(** Line 104 reads the same toggle by truthiness: an absent key disables
    the post-fix formatter. *)
Lemma prettier_format_pass_off_by_default config l s :
  config !! JsString.lit "enablePrettier" = None ->
  prettier_format_pass options config l s = (Normal l, s).
Proof.
  intros Hkey. unfold prettier_format_pass, prop. rewrite Hkey. reflexivity.
Qed.

(** A failure of the setup, the pre-fix pass included, is the failure of
    the whole run. *)
Lemma scan_setup_throw s e s' :
  scan_setup options s = (Throw e, s') -> scan options s = (Throw e, s').
Proof. intros Hsetup. unfold scan. apply bind_throw, Hsetup. Qed.

End PrettierToggle.


(** C4: with [fix] set and an explicit list whose first file cannot be
    read, the pre-fix pass throws at that file; the rest of the list is
    not formatted, and the whole run ends with that error: no lint pass is
    called and no report is returned. *)
Theorem pre_fix_failure_aborts_the_run :
  let opts := Fixture.options true true (Some ["missing.ts"; "a.ts"; "b.css"]%string) in
  Fixture.run ∅ None None None None opts Fixture.project
  = (Throw (ENOENT (JsString.lit "missing.ts")), mkSt Fixture.project []).
Proof. vm_compute. reflexivity. Qed.

(** ** The file-set resolver on an empty extension set *)

Section PathFacts.
Import JsString Path.

Lemma split_on_not_nil sep s : split_on sep s ≠ [].
Proof.
  destruct s as [|c s]; simpl; [discriminate|].
  destruct (c =? sep); [discriminate|].
  destruct (split_on sep s); discriminate.
Qed.

Lemma cons_to_head_app c (xs ys : list jsstring) :
  xs ≠ [] -> cons_to_head c (xs ++ ys) = cons_to_head c xs ++ ys.
Proof. destruct xs; [congruence|reflexivity]. Qed.

Lemma split_on_app sep a b :
  split_on sep (a ++ sep :: b) = split_on sep a ++ split_on sep b.
Proof.
  induction a as [|c a IH]; simpl.
  - rewrite N.eqb_refl. reflexivity.
  - rewrite IH. destruct (c =? sep); [reflexivity|].
    apply cons_to_head_app, split_on_not_nil.
Qed.

Lemma join_app sep (xs ys : list jsstring) :
  ys ≠ [] ->
  join sep (xs ++ ys)
  = match xs with
    | [] => join sep ys
    | _ :: _ => join sep xs ++ sep ++ join sep ys
    end.
Proof.
  intros Hys. induction xs as [|x xs IH]; [reflexivity|].
  simpl. destruct xs as [|x' xs].
  - simpl. destruct ys; [congruence|reflexivity].
  - simpl in IH |- *. rewrite IH. rewrite <- !app_assoc. reflexivity.
Qed.

Lemma normalize_step_keep allowAboveRoot acc seg :
  seg ≠ [] -> seg ≠ [DOT] -> seg ≠ [DOT; DOT] ->
  normalize_step allowAboveRoot acc seg = seg :: acc.
Proof.
  intros H0 H1 H2. unfold normalize_step, eqb.
  rewrite !bool_decide_eq_false_2 by assumption. reflexivity.
Qed.

(** What the loop of [path.resolve] has accumulated is kept at the end
    of the path it builds, after a slash. *)
Lemma resolve_loop_suffix args acc :
  exists pre, (resolve_loop args acc).1 = pre ++ acc
              /\ (pre = [] \/ exists pre', pre = pre' ++ [SLASH]).
Proof.
  revert acc. induction args as [|p args IH]; intros acc.
  - exists []. auto.
  - destruct p as [|c p]; [apply IH|].
    change (resolve_loop ((c :: p) :: args) acc)
      with (let acc' := (c :: p) ++ [SLASH] ++ acc in
            if is_absolute (c :: p) then (acc', true)
            else resolve_loop args acc').
    cbv zeta. destruct (is_absolute (c :: p)).
    + exists ((c :: p) ++ [SLASH]).
      split; [rewrite <- app_assoc; reflexivity|].
      right. exists (c :: p). reflexivity.
    + destruct (IH ((c :: p) ++ [SLASH] ++ acc)) as (pre & Heq & _).
      exists (pre ++ (c :: p) ++ [SLASH]). rewrite Heq.
      split; [rewrite <- !app_assoc; reflexivity|].
      right. exists (pre ++ c :: p). rewrite <- app_assoc. reflexivity.
Qed.

Lemma resolve_loop_relative p rest acc :
  p ≠ [] -> is_absolute p = false ->
  resolve_loop (p :: rest) acc = resolve_loop rest (p ++ [SLASH] ++ acc).
Proof.
  intros Hp Hrel. destruct p as [|c p]; [congruence|].
  change (resolve_loop ((c :: p) :: rest) acc)
    with (let acc' := (c :: p) ++ [SLASH] ++ acc in
          if is_absolute (c :: p) then (acc', true)
          else resolve_loop rest acc').
  cbv zeta. rewrite Hrel. reflexivity.
Qed.

Lemma split_on_plain s : SLASH ∉ s -> split_on SLASH s = [s].
Proof.
  induction s as [|c s IHs]; intros Hs; [reflexivity|]. simpl.
  destruct (N.eqb_spec c SLASH) as [->|Hne].
  - exfalso. apply Hs. apply list_elem_of_here.
  - rewrite IHs; [reflexivity|]. intros Hin. apply Hs.
    apply list_elem_of_further, Hin.
Qed.

(** Normalising a path that ends with the plain segments [a/b/] yields
    a path that ends with [a/b]. *)
Lemma normalizeString_ends_with allowAboveRoot (pre a b : jsstring) :
  a ≠ [] -> a ≠ [DOT] -> a ≠ [DOT; DOT] -> SLASH ∉ a ->
  b ≠ [] -> b ≠ [DOT] -> b ≠ [DOT; DOT] -> SLASH ∉ b ->
  (pre = [] \/ exists pre', pre = pre' ++ [SLASH]) ->
  exists prefix,
    normalizeString (pre ++ a ++ [SLASH] ++ b ++ [SLASH]) allowAboveRoot
    = prefix ++ a ++ [SLASH] ++ b.
Proof.
  intros Ha0 Ha1 Ha2 Has Hb0 Hb1 Hb2 Hbs Hpre.
  assert (Hlast : split_on SLASH (a ++ [SLASH] ++ b ++ [SLASH]) = [a; b; []]).
  { change (a ++ [SLASH] ++ b ++ [SLASH]) with (a ++ SLASH :: (b ++ SLASH :: [])).
    rewrite split_on_app, (split_on_plain a Has).
    rewrite split_on_app, (split_on_plain b Hbs). reflexivity. }
  assert (Hfold : forall acc,
            fold_left (normalize_step allowAboveRoot) [a; b; []] acc
            = b :: a :: acc).
  { intros acc. simpl.
    rewrite (normalize_step_keep _ acc a), (normalize_step_keep _ _ b)
      by assumption.
    reflexivity. }
  unfold normalizeString.
  destruct Hpre as [->|[pre' ->]].
  - rewrite app_nil_l, Hlast, Hfold. exists []. reflexivity.
  - rewrite <- app_assoc.
    change ([SLASH] ++ a ++ [SLASH] ++ b ++ [SLASH])
      with (SLASH :: (a ++ [SLASH] ++ b ++ [SLASH])).
    rewrite split_on_app, Hlast, fold_left_app, Hfold.
    match goal with |- context [rev (b :: a :: ?x)] =>
      change (rev (b :: a :: x)) with ((rev x ++ [a]) ++ [b]) end.
    rewrite <- app_assoc. change ([a] ++ [b]) with [a; b].
    rewrite join_app by discriminate.
    destruct (rev _) as [|x xs].
    + exists []. reflexivity.
    + exists (join [SLASH] (x :: xs) ++ [SLASH]).
      rewrite <- !app_assoc. reflexivity.
Qed.

(** A path resolved from arguments the last of which is a relative path
    of plain segments [a/b] ends with [a/b]. *)
Lemma resolve_ends_with process_cwd (args : list jsstring) (a b : jsstring) :
  a ≠ [] -> a ≠ [DOT] -> a ≠ [DOT; DOT] -> SLASH ∉ a ->
  b ≠ [] -> b ≠ [DOT] -> b ≠ [DOT; DOT] -> SLASH ∉ b ->
  is_absolute a = false ->
  exists prefix,
    Path.resolve process_cwd (args ++ [a ++ [SLASH] ++ b])
    = prefix ++ a ++ [SLASH] ++ b.
Proof.
  intros Ha0 Ha1 Ha2 Has Hb0 Hb1 Hb2 Hbs Hrel.
  unfold Path.resolve. rewrite rev_app_distr.
  change (rev [a ++ [SLASH] ++ b]) with [a ++ [SLASH] ++ b].
  change ([a ++ [SLASH] ++ b] ++ rev args)
    with ((a ++ [SLASH] ++ b) :: rev args).
  rewrite <- app_comm_cons.
  rewrite resolve_loop_relative.
  2:{ destruct a; [congruence|discriminate]. }
  2:{ destruct a; [congruence|exact Hrel]. }
  destruct (resolve_loop_suffix (rev args ++ [process_cwd])
              ((a ++ [SLASH] ++ b) ++ [SLASH] ++ []))
    as (pre & Heq & Hpre).
  destruct (resolve_loop _ _) as [resolvedPath resolvedAbsolute].
  simpl in Heq. subst resolvedPath.
  destruct (normalizeString_ends_with (negb resolvedAbsolute) pre a b)
    as (prefix & Hnorm); try assumption.
  replace (pre ++ (a ++ SLASH :: b) ++ [SLASH])
    with (pre ++ a ++ [SLASH] ++ b ++ [SLASH])
    by (change (a ++ SLASH :: b) with (a ++ [SLASH] ++ b);
        rewrite <- !app_assoc; reflexivity).
  rewrite Hnorm. destruct resolvedAbsolute.
  - exists (SLASH :: prefix). reflexivity.
  - destruct (prefix ++ a ++ [SLASH] ++ b) eqn:Hres.
    + destruct prefix; [destruct a|]; discriminate.
    + exists prefix. symmetry. exact Hres.
Qed.

End PathFacts.




(** ** The ignore-list reader *)

Section TrimFacts.
Import JsString.

Lemma trimStart_idemp s : trimStart (trimStart s) = trimStart s.
Proof.
  induction s as [|c s IH]; [reflexivity|]. simpl.
  destruct (is_trimmed_char c) eqn:Hc; [exact IH|]. simpl. rewrite Hc. reflexivity.
Qed.

Lemma trimStart_fixed s :
  trimStart s = s ->
  s = [] \/ exists c s', s = c :: s' /\ is_trimmed_char c = false.
Proof.
  destruct s as [|c s]; [auto|]. simpl.
  destruct (is_trimmed_char c) eqn:Hc; [|eauto].
  intros Heq. exfalso.
  assert (Hlen : forall t, (length (trimStart t) <= length t)%nat).
  { induction t as [|x t IHt]; simpl; [lia|].
    destruct (is_trimmed_char x); simpl; lia. }
  specialize (Hlen s). rewrite Heq in Hlen. simpl in Hlen. lia.
Qed.

(** A stripped character at the end is dropped with the rest, or kept
    behind what remains. *)
Lemma trimStart_snoc_stripped s c :
  is_trimmed_char c = true ->
  trimStart (s ++ [c])
  = match trimStart s with [] => [] | _ :: _ => trimStart s ++ [c] end.
Proof.
  intros Hc. induction s as [|x s IH]; simpl.
  - rewrite Hc. reflexivity.
  - destruct (is_trimmed_char x); [exact IH|reflexivity].
Qed.

Lemma trimStart_snoc_kept s c :
  is_trimmed_char c = false -> trimStart (s ++ [c]) = trimStart s ++ [c].
Proof.
  intros Hc. induction s as [|x s IH]; simpl.
  - rewrite Hc. reflexivity.
  - destruct (is_trimmed_char x); [exact IH|reflexivity].
Qed.

Lemma trimEnd_snoc_stripped s c :
  is_trimmed_char c = true -> trimEnd (s ++ [c]) = trimEnd s.
Proof.
  intros Hc. unfold trimEnd. rewrite rev_app_distr. simpl. rewrite Hc.
  reflexivity.
Qed.

(** Trimming does not see a stripped character at the end: a carriage
    return before a line feed, in particular. *)
Lemma trim_snoc_stripped s c :
  is_trimmed_char c = true -> trim (s ++ [c]) = trim s.
Proof.
  intros Hc. unfold trim. rewrite (trimStart_snoc_stripped _ _ Hc).
  destruct (trimStart s) as [|x t] eqn:Ht; [reflexivity|].
  apply trimEnd_snoc_stripped, Hc.
Qed.

Lemma trim_idemp s : trim (trim s) = trim s.
Proof.
  assert (Hstart : trimStart (trim s) = trim s).
  { unfold trim.
    destruct (trimStart_fixed (trimStart s) (trimStart_idemp s))
      as [->|(c & t & -> & Hc)]; [reflexivity|].
    unfold trimEnd. simpl rev. rewrite (trimStart_snoc_kept _ _ Hc).
    rewrite rev_app_distr. simpl. rewrite Hc. reflexivity. }
  assert (Hend : trimEnd (trim s) = trim s).
  { unfold trim, trimEnd. rewrite rev_involutive, trimStart_idemp.
    reflexivity. }
  unfold trim at 1. rewrite Hstart. exact Hend.
Qed.

Lemma same_line_cons_to_head c xs ys :
  Forall2 same_line xs ys ->
  Forall2 same_line (cons_to_head c xs) (cons_to_head c ys).
Proof.
  intros [|x y xs' ys' Hxy Hrest]; simpl.
  - constructor; [left; reflexivity|constructor].
  - constructor; [|exact Hrest].
    destruct Hxy as [->| ->]; [left|right]; reflexivity.
Qed.

Lemma split_lines_lines_of_bounded n s :
  (length s <= n)%nat -> Forall2 same_line (split_lines s) (lines_of s).
Proof.
  unfold lines_of. revert s. induction n as [|n IH]; intros s Hlen.
  - destruct s; [|simpl in Hlen; lia].
    simpl. constructor; [left; reflexivity|constructor].
  - destruct s as [|c s].
    { simpl. constructor; [left; reflexivity|constructor]. }
    simpl in Hlen. simpl.
    destruct (c =? LF) eqn:Hc.
    { constructor; [left; reflexivity|]. apply IH. lia. }
    destruct s as [|d s'].
    { simpl. constructor; [left; reflexivity|constructor]. }
    destruct ((c =? CR) && (d =? LF)) eqn:Hcr.
    + apply andb_true_iff in Hcr as [Hcr Hd].
      apply N.eqb_eq in Hcr. subst c. simpl. rewrite Hd. simpl.
      constructor; [right; reflexivity|]. apply IH. simpl in Hlen. lia.
    + apply same_line_cons_to_head. apply IH. lia.
Qed.

Lemma trim_split_lines s :
  map trim (split_lines s) = map trim (lines_of s).
Proof.
  pose proof (split_lines_lines_of_bounded (length s) s (le_n _)) as H.
  induction H as [|x y xs ys Hxy _ IH]; [reflexivity|].
  simpl. rewrite IH. f_equal.
  destruct Hxy as [->| ->]; [reflexivity|].
  symmetry. apply trim_snoc_stripped. reflexivity.
Qed.

End TrimFacts.

Lemma is_pattern_line_spec (l : jsstring) :
  is_pattern_line l = true <-> l ≠ [] /\ head l ≠ Some 35.
Proof.
  destruct l as [|c l].
  - split; [discriminate|]. intros [H _]. congruence.
  - change (is_pattern_line (c :: l)) with (negb ((35 =? c) && true)).
    rewrite andb_true_r. destruct (N.eqb_spec 35 c) as [<-|Hne].
    + split; [discriminate|]. intros [_ H]. exfalso. apply H. reflexivity.
    + split; [|reflexivity]. intros _. split; [discriminate|].
      intros [= Hc]. apply Hne. symmetry. exact Hc.
Qed.

Lemma filter_pattern_lines (ls : list jsstring) :
  List.filter is_pattern_line ls
  = filter (fun l => l ≠ [] /\ head l ≠ Some 35) ls.
Proof.
  induction ls as [|l ls IH]; [reflexivity|].
  simpl. rewrite filter_cons, IH.
  destruct (is_pattern_line l) eqn:Hl.
  - apply is_pattern_line_spec in Hl. rewrite decide_True by exact Hl. reflexivity.
  - rewrite decide_False; [reflexivity|].
    intros Hp. apply is_pattern_line_spec in Hp. congruence.
Qed.

Section IgnoreReader.
Context `{!Platform}.
Variable options : ScanOptions.

(** C8: reading an ignore file returns its lines (the pieces between
    line feeds) trimmed, without the empty ones and without those that
    start with [#], in the order of the file; a path that does not exist
    yields the empty list and no error; reading leaves the disk as it
    is, so that reading again returns the same list, in the same order;
    every line returned is trimmed, non-empty and does not start with
    [#]. *)
Theorem readIgnore_reads_pattern_lines (filepath : jsstring) (s : St) :
  let localPath := resolve [resolve [cwd options; filepath]] in
  (forall content,
     disk s !! localPath = Some (File content) ->
     readIgnore options filepath s
     = (Normal (filter (fun l => l ≠ [] /\ head l ≠ Some 35)
                  (JsString.trim <$> lines_of content)), s))
  /\ (disk s !! localPath = None ->
      readIgnore options filepath s = (Normal [], s))
  /\ (forall lines s',
        readIgnore options filepath s = (Normal lines, s') ->
        s' = s
        /\ readIgnore options filepath s' = (Normal lines, s')
        /\ Forall (fun l => JsString.trim l = l /\ l ≠ [] /\ head l ≠ Some 35)
             lines).
Proof.
  intros localPath.
  assert (Hfile : forall content,
            disk s !! localPath = Some (File content) ->
            readIgnore options filepath s
            = (Normal (filter (fun l => l ≠ [] /\ head l ≠ Some 35)
                         (JsString.trim <$> lines_of content)), s)).
  { intros content Hlook. unfold readIgnore, bind, existsSync, readFileSync, call_ro.
    cbn beta iota delta [fst snd]. fold localPath. rewrite Hlook.
    rewrite bool_decide_eq_true_2 by eauto.
    cbn beta iota. fold localPath. rewrite Hlook. unfold ret.
    rewrite filter_pattern_lines.
    replace (if JsString.nonempty content then content else []) with content
      by (destruct content; reflexivity).
    rewrite trim_split_lines. reflexivity. }
  assert (Hnone : disk s !! localPath = None ->
            readIgnore options filepath s = (Normal [], s)).
  { intros Hlook. unfold readIgnore, bind, existsSync, call_ro.
    cbn beta iota delta [fst snd]. fold localPath. rewrite Hlook.
    rewrite bool_decide_eq_false_2; [reflexivity|].
    intros [x Hx]. discriminate. }
  split; [exact Hfile|]. split; [exact Hnone|].
  intros lines s' Hread.
  pose proof (readIgnore_state options filepath s) as Hst.
  rewrite Hread in Hst. simpl in Hst. subst s'.
  split; [reflexivity|]. split; [exact Hread|].
  destruct (disk s !! localPath) as [[content|]|] eqn:Hlook.
  - rewrite (Hfile content eq_refl) in Hread. injection Hread as <-.
    apply Forall_forall. intros l Hl.
    apply list_elem_of_filter in Hl as [[Hne Hhash] Hin].
    apply list_elem_of_fmap in Hin as (l0 & -> & _).
    split; [apply trim_idemp|]. split; assumption.
  - exfalso. revert Hread.
    unfold readIgnore, bind, existsSync, readFileSync, call_ro.
    cbn beta iota delta [fst snd]. fold localPath. rewrite Hlook.
    rewrite bool_decide_eq_true_2 by eauto.
    cbn beta iota. fold localPath. rewrite Hlook. discriminate.
  - rewrite (Hnone eq_refl) in Hread. injection Hread as <-. constructor.
Qed.

End IgnoreReader.

(** * More of [scan] *)

(** ** The order of the calls *)

Lemma in_order_emit (k p : nat) s ev :
  in_order k s -> phase ev = p ->
  (k < p)%nat \/ (k = 0%nat /\ p = 0%nat) ->
  in_order p (mkSt (disk s) (trace s ++ [ev])).
Proof.
  intros [Hsorted Hbound] Hp Hk. split; simpl.
  - induction Hsorted as [|a l Hl IH Ha]; simpl.
    + constructor; constructor.
    + apply Forall_cons in Hbound as [Hab Hbl].
      constructor; [apply IH, Hbl|].
      apply Forall_app. split; [exact Ha|].
      constructor; [|constructor]. unfold before. lia.
  - apply Forall_app. split.
    + eapply Forall_impl; [exact Hbound|]. simpl. intros. lia.
    + constructor; [lia|constructor].
Qed.

Lemma in_order_mono (k k' : nat) s :
  (k <= k')%nat -> in_order k s -> in_order k' s.
Proof.
  intros Hk [Hsorted Hbound]. split; [exact Hsorted|].
  eapply Forall_impl; [exact Hbound|]. simpl. intros. lia.
Qed.

Lemma in_order_disk (k : nat) s d : in_order k s -> in_order k (mkSt d (trace s)).
Proof. intros H. exact H. Qed.

(** A step that leaves the state alone, within a pass that ends at stage
    [b]. *)
Lemma hoare_skip_upto {A} (k b : nat) (m : M A) :
  (k <= b)%nat ->
  (forall s, (m s).2 = s) ->
  hoare (in_order k) m (fun _ => in_order k) (in_order b).
Proof.
  intros Hk Hm s Hs. specialize (Hm s).
  destruct (m s) as [[a|e] s']; simpl in Hm; subst s'; [exact Hs|].
  apply (in_order_mono k b _ Hk Hs).
Qed.

Lemma hoare_rw_upto {A} (k b : nat) (f : FileSystem -> Completion A * FileSystem) :
  (k <= b)%nat ->
  hoare (in_order k) (call_rw f) (fun _ => in_order k) (in_order b).
Proof.
  intros Hk s Hs. unfold call_rw.
  destruct (f (disk s)) as [[a|e] d]; [exact Hs|].
  apply (in_order_mono k b _ Hk Hs).
Qed.

Lemma hoare_emit_upto (k p : nat) (E : St -> Prop) ev :
  phase ev = p ->
  (k < p)%nat \/ (k = 0%nat /\ p = 0%nat) ->
  hoare (in_order k) (emit ev) (fun _ => in_order p) E.
Proof.
  intros Hp Hk. apply hoare_emit. intros s Hs.
  apply (in_order_emit k p s ev Hs Hp Hk).
Qed.

Lemma hoare_ret_upto {A} (k b : nat) (E : St -> Prop) (a : A) :
  (k <= b)%nat -> hoare (in_order k) (ret a) (fun _ => in_order b) E.
Proof. intros Hk. apply hoare_ret. intros s. apply in_order_mono, Hk. Qed.

Section CallOrder.
Context {V : Type}.
Context `{!Constants, !Platform}.
Context `{!EslintAdapter V, !StylelintAdapter V, !MarkdownlintAdapter V}.
Variable options : ScanOptions.

Lemma scan_setup_order :
  hoare (in_order 0) (scan_setup options) (fun _ => in_order 0) (in_order 0).
Proof.
  unfold scan_setup.
  hoare_seq; [apply hoare_unchanged, readConfigFile_state|].
  hoare_seq; [apply hoare_unchanged, readConfigFile_state|].
  hoare_seq; [apply hoare_unchanged, readIgnore_state|].
  hoare_seq; [apply hoare_unchanged, readIgnore_state|].
  eapply hoare_bind with (R := fun _ => in_order 0);
    [|intros u; apply hoare_ret; auto].
  unfold prettier_pass. apply hoare_when. intros _.
  eapply hoare_bind with (R := fun _ => in_order 0).
  { destruct (getLintFiles _ _); [apply hoare_ret; auto|].
    apply hoare_unchanged. intros s. reflexivity. }
  intros fl. apply hoare_forEach. intros filePath _.
  hoare_seq; [apply hoare_unchanged, readFileSync_state|].
  apply hoare_emit_upto; [reflexivity|lia].
Qed.

Lemma eslint_pass_order pkg config l :
  hoare (in_order 0) (eslint_pass options pkg config l)
    (fun _ => in_order 2) (in_order 2).
Proof.
  unfold eslint_pass. eapply hoare_try_catch with (E' := in_order 2).
  2:{ intros e. apply hoare_ret. auto. }
  eapply hoare_bind with (R := fun _ => in_order 2);
    [|intros u; apply hoare_ret; auto].
  unfold eslint_run.
  hoare_seq; [apply hoare_skip_upto; [lia|reflexivity]|].
  hoare_seq; [apply hoare_skip_upto; [lia|reflexivity]|].
  hoare_seq; [apply (hoare_emit_upto 0 1); [reflexivity|lia]|].
  hoare_seq; [apply hoare_rw_upto; lia|].
  eapply hoare_bind with (R := fun _ => in_order 2).
  - unfold when. destruct (fix_ options).
    + hoare_seq; [apply (hoare_emit_upto 1 2); [reflexivity|lia]|].
      apply hoare_rw_upto. lia.
    + apply hoare_ret_upto. lia.
  - intros u. apply hoare_skip_upto; [lia|reflexivity].
Qed.

Lemma stylelint_pass_order pkg config l :
  hoare (in_order 2) (stylelint_pass options pkg config l)
    (fun _ => in_order 3) (in_order 3).
Proof.
  unfold stylelint_pass. destruct (is_not_false _); [|apply hoare_ret_upto; lia].
  eapply hoare_try_catch with (E' := in_order 3).
  2:{ intros e. apply hoare_ret. auto. }
  eapply hoare_bind with (R := fun _ => in_order 3);
    [|intros u; apply hoare_ret; auto].
  unfold stylelint_run.
  hoare_seq; [apply hoare_skip_upto; [lia|reflexivity]|].
  hoare_seq; [apply (hoare_emit_upto 2 3); [reflexivity|lia]|].
  hoare_seq; [apply hoare_rw_upto; lia|].
  hoare_seq; apply hoare_skip_upto; try lia; reflexivity.
Qed.

Lemma markdown_pass_order config l :
  hoare (in_order 3) (markdown_pass options config l)
    (fun _ => in_order 4) (in_order 4).
Proof.
  unfold markdown_pass. destruct (is_not_false _); [|apply hoare_ret_upto; lia].
  eapply hoare_try_catch with (E' := in_order 4).
  2:{ intros e. apply hoare_ret. auto. }
  eapply hoare_bind with (R := fun _ => in_order 4);
    [|intros u; apply hoare_ret; auto].
  unfold markdown_run.
  hoare_seq.
  { destruct (files options).
    - apply hoare_ret_upto with (b := 3%nat). lia.
    - hoare_seq; [apply hoare_skip_upto; [|reflexivity]|apply hoare_ret; auto].
      lia. }
  hoare_seq; [apply hoare_skip_upto; [lia|reflexivity]|].
  hoare_seq; [apply (hoare_emit_upto 3 4); [reflexivity|lia]|].
  hoare_seq; [apply hoare_rw_upto; lia|].
  apply hoare_skip_upto; [lia|reflexivity].
Qed.

Lemma prettier_format_pass_order config l :
  hoare (in_order 4) (prettier_format_pass options config l)
    (fun _ => in_order 5) (in_order 5).
Proof.
  unfold prettier_format_pass. destruct (_ && _); [|apply hoare_ret_upto; lia].
  eapply hoare_try_catch with (E' := in_order 5).
  2:{ intros e. apply hoare_ret. auto. }
  eapply hoare_bind with (R := fun _ => in_order 5);
    [|intros u; apply hoare_ret; auto].
  unfold prettier_exec.
  hoare_seq.
  { destruct (files options).
    - apply hoare_ret_upto with (b := 4%nat). lia.
    - apply hoare_skip_upto; [lia|reflexivity]. }
  hoare_seq; [apply (hoare_emit_upto 4 5); [reflexivity|lia]|].
  apply hoare_rw_upto. lia.
Qed.

Lemma scan_order :
  hoare (in_order 0) (scan options) (fun _ => in_order 6) (in_order 6).
Proof.
  unfold scan.
  hoare_seq.
  { eapply hoare_conseq; [apply scan_setup_order|auto|intros a s Hs; exact Hs|].
    intros s. apply in_order_mono. lia. }
  unfold scan_passes.
  hoare_seq.
  { eapply hoare_conseq; [apply eslint_pass_order|auto|intros ? s Hs; exact Hs|].
    intros s. apply in_order_mono. lia. }
  hoare_seq.
  { eapply hoare_conseq; [apply stylelint_pass_order|auto|intros ? s Hs; exact Hs|].
    intros s. apply in_order_mono. lia. }
  hoare_seq.
  { eapply hoare_conseq; [apply markdown_pass_order|auto|intros ? s Hs; exact Hs|].
    intros s. apply in_order_mono. lia. }
  hoare_seq.
  { eapply hoare_conseq; [apply prettier_format_pass_order|auto|intros ? s Hs; exact Hs|].
    intros s. apply in_order_mono. lia. }
  eapply hoare_bind with (R := fun _ => in_order 6);
    [|intros u; apply hoare_ret; auto].
  unfold output_report, when. destruct (outputReport options).
  - apply (hoare_emit_upto 5 6); [reflexivity|lia].
  - apply hoare_ret_upto. lia.
Qed.

(** X1: the calls of a run are made in the order of the stages of the
    source: the files of the pre-fix pass, then the script linter, its
    fixes, the style linter, the markdown linter, the post-fix formatter
    and the report, each of these at most once. *)
Theorem calls_are_in_stage_order (d : FileSystem) :
  let tr := trace (run_scan options d).2 in
  StronglySorted before tr
  /\ (forall tool, (length (file_sets tool tr) <= 1)%nat)
  /\ (forall p, (1 <= p)%nat ->
        (length (filter (fun ev => phase ev = p) tr) <= 1)%nat).
Proof.
  intros tr.
  assert (Hsorted : StronglySorted before tr).
  { pose proof (scan_order (mkSt d [])) as Hord. unfold tr, run_scan.
    destruct (scan options (mkSt d [])) as [[r|e] s'];
      apply Hord; (split; constructor). }
  assert (Hone : forall p, (1 <= p)%nat ->
            (length (filter (fun ev => phase ev = p) tr) <= 1)%nat).
  { intros p Hp. clear -Hsorted Hp.
    induction Hsorted as [|a l Hl IH Ha]; [simpl; lia|].
    rewrite filter_cons. destruct (decide (phase a = p)) as [Hap|Hap]; [|exact IH].
    simpl. replace (filter (fun ev => phase ev = p) l) with (@nil Event); [simpl; lia|].
    symmetry. apply elem_of_nil_inv. intros ev [Hev Hin]%list_elem_of_filter.
    rewrite Forall_forall in Ha. specialize (Ha ev Hin). unfold before in Ha. lia. }
  split; [exact Hsorted|]. split; [|exact Hone].
  intros tool.
  set (p := match tool with
            | ScriptLint => 1 | StyleLint => 3 | MarkdownLinter => 4
            end%nat).
  assert (Hp : (1 <= p)%nat) by (unfold p; destruct tool; lia).
  apply Nat.le_trans with (length (filter (fun ev => phase ev = p) tr));
    [|apply (Hone p Hp)].
  unfold file_sets. generalize tr. clear. intros l.
  induction l as [|ev l IH]; [reflexivity|].
  rewrite filter_cons. cbn [omap list_omap].
  destruct (handed_to tool ev) eqn:Hh.
  - rewrite decide_True; [cbn [length]; lia|].
    unfold p. destruct tool, ev; simpl in Hh; try discriminate; reflexivity.
  - destruct (decide _); cbn [length]; lia.
Qed.

End CallOrder.

(** ** What a run is sure to call *)

Section Growth.
Context {V : Type}.
Context `{!Constants, !Platform}.
Context `{!EslintAdapter V, !StylelintAdapter V, !MarkdownlintAdapter V}.
Variable options : ScanOptions.

(** An assertion on states that survives whatever an engine does to the
    disk and whatever call is recorded next. *)
Variable J : St -> Prop.
Hypothesis J_disk : forall s d, J s -> J (mkSt d (trace s)).
Hypothesis J_emit : forall s ev, J s -> J (mkSt (disk s) (trace s ++ [ev])).

Lemma hoare_rw_stable {A} (f : FileSystem -> Completion A * FileSystem) :
  hoare J (call_rw f) (fun _ => J) J.
Proof. apply hoare_call_rw. intros s Hs. apply J_disk, Hs. Qed.

Lemma hoare_emit_stable ev : hoare J (emit ev) (fun _ => J) J.
Proof. apply hoare_emit. intros s Hs. apply J_emit, Hs. Qed.

Lemma eslint_run_stable pkg config :
  hoare J (eslint_run options pkg config) (fun _ => J) J.
Proof.
  unfold eslint_run.
  hoare_seq; [hoare_skip|]. hoare_seq; [hoare_skip|].
  hoare_seq; [apply hoare_emit_stable|].
  hoare_seq; [apply hoare_rw_stable|].
  hoare_seq; [|hoare_skip].
  apply hoare_when. intros _.
  hoare_seq; [apply hoare_emit_stable|apply hoare_rw_stable].
Qed.

Lemma stylelint_run_stable pkg config :
  hoare J (stylelint_run options pkg config) (fun _ => J) J.
Proof.
  unfold stylelint_run.
  hoare_seq; [hoare_skip|].
  hoare_seq; [apply hoare_emit_stable|].
  hoare_seq; [apply hoare_rw_stable|].
  hoare_seq; hoare_skip.
Qed.

Lemma markdown_run_stable :
  hoare J (markdown_run options) (fun _ => J) J.
Proof.
  unfold markdown_run.
  eapply hoare_bind with (R := fun _ => J).
  { destruct (files options); [apply hoare_ret; auto|].
    hoare_seq; [hoare_skip|apply hoare_ret; auto]. }
  intros target.
  hoare_seq; [hoare_skip|].
  hoare_seq; [apply hoare_emit_stable|].
  hoare_seq; [apply hoare_rw_stable|hoare_skip].
Qed.

Lemma prettier_exec_stable :
  hoare J (prettier_exec options) (fun _ => J) J.
Proof.
  unfold prettier_exec.
  eapply hoare_bind with (R := fun _ => J).
  { destruct (files options); [apply hoare_ret; auto|hoare_skip]. }
  intros names.
  hoare_seq; [apply hoare_emit_stable|apply hoare_rw_stable].
Qed.

End Growth.

Section Sure.
Context {V : Type}.
Context `{!Constants, !Platform}.
Context `{!EslintAdapter V, !StylelintAdapter V, !MarkdownlintAdapter V}.
Variable options : ScanOptions.

(** What a call of the trace is kept by every later step. *)
Lemma kept_disk ev s d : ev ∈ trace s -> ev ∈ trace (mkSt d (trace s)).
Proof. auto. Qed.

Lemma kept_emit ev s ev' :
  ev ∈ trace s -> ev ∈ trace (mkSt (disk s) (trace s ++ [ev'])).
Proof. intros Hin. simpl. apply elem_of_app. left. exact Hin. Qed.

(** The state the guarded passes end in, and the report they return. *)
Lemma scan_passes_final (s1 : St) (pkg config : JsObj) :
  let r1 := eslint_run options pkg config s1 in
  let r2 := if is_not_false (prop config "enableStylelint")
            then stylelint_run options pkg config r1.2
            else (Normal [], r1.2) in
  let r3 := if is_not_false (prop config "enableMarkdownlint")
            then markdown_run options r2.2
            else (Normal [], r2.2) in
  let r4 := if truthy (prop config "enablePrettier") && fix_ options
            then prettier_exec options r3.2
            else (Normal tt, r3.2) in
  exists l,
    scan_passes options pkg config s1
    = (Normal (report_of l),
       mkSt (disk r4.2)
         (trace r4.2 ++
          if outputReport options
          then [OutputFile
                  (resolve [process_cwd;
                            JsString.lit "./" ++ PKG_NAME
                            ++ JsString.lit "-report.json"])
                  (JSON.stringify (results l))]
          else [])).
Proof.
  intros r1 r2 r3 r4.
  unfold scan_passes.
  unfold eslint_pass. erewrite bind_normal by apply guarded_pass.
  fold r1. set (l1 := mkLocals _ _).
  assert (Hl2 : exists l2, stylelint_pass options pkg config l1 r1.2
                           = (Normal l2, r2.2)).
  { unfold stylelint_pass, r2.
    destruct (is_not_false (prop config "enableStylelint")).
    - eexists. apply guarded_pass.
    - eexists. reflexivity. }
  destruct Hl2 as [l2 Hl2]. rewrite (bind_normal _ _ _ _ _ Hl2).
  assert (Hl3 : exists l3, markdown_pass options config l2 r2.2
                           = (Normal l3, r3.2)).
  { unfold markdown_pass, r3.
    destruct (is_not_false (prop config "enableMarkdownlint")).
    - eexists. apply guarded_pass.
    - eexists. reflexivity. }
  destruct Hl3 as [l3 Hl3]. rewrite (bind_normal _ _ _ _ _ Hl3).
  assert (Hl4 : exists l4, prettier_format_pass options config l3 r3.2
                           = (Normal l4, r4.2)).
  { unfold prettier_format_pass, r4.
    destruct (truthy (prop config "enablePrettier") && fix_ options).
    - eexists. apply guarded_exec.
    - eexists. reflexivity. }
  destruct Hl4 as [l4 Hl4]. rewrite (bind_normal _ _ _ _ _ Hl4).
  exists l4. unfold output_report, when, bind, emit, ret.
  destruct (outputReport options); [reflexivity|].
  rewrite app_nil_r. destruct (r4.2). reflexivity.
Qed.


Lemma run_extends {A} (m : M A) s :
  (forall J : St -> Prop,
     (forall s d, J s -> J (mkSt d (trace s))) ->
     (forall s ev, J s -> J (mkSt (disk s) (trace s ++ [ev]))) ->
     hoare J m (fun _ => J) J) ->
  forall ev, ev ∈ trace s -> ev ∈ trace (m s).2.
Proof.
  intros Hm ev Hin.
  specialize (Hm (fun s' => ev ∈ trace s') (kept_disk ev) (kept_emit ev) s Hin).
  destruct (m s) as [[a|e] s']; exact Hm.
Qed.

(** X2: the script linter runs whatever the toggles
    say, and the style and markdown linters run unless their toggle is
    exactly [false]. Once the setup is over, if the configuration of a
    linter can be derived when its pass starts (and, for the markdown
    linter without an explicit list, the glob succeeds), the linter is
    called with its file set. *)
Theorem enabled_linters_are_called (s0 s1 : St) (pkg config : JsObj) :
  scan_setup options s0 = (Normal (pkg, config), s1) ->
  let r1 := eslint_run options pkg config s1 in
  let r2 := if is_not_false (prop config "enableStylelint")
            then stylelint_run options pkg config r1.2
            else (Normal [], r1.2) in
  let calls := trace (scan options s0).2 in
  (forall cfg cli,
     eslint_getLintConfig options pkg config (disk s1) = Normal cfg ->
     eslint_ESLint cfg (disk s1) = Normal cli ->
     EslintLintFiles (getLintFiles options ESLINT_FILE_EXT) ∈ calls)
  /\ (forall cfg,
        is_not_false (prop config "enableStylelint") = true ->
        stylelint_getLintConfig options pkg config (disk r1.2) = Normal cfg ->
        StylelintLint (getLintFiles options STYLELINT_FILE_EXT) ∈ calls)
  /\ (forall cfg target,
        is_not_false (prop config "enableMarkdownlint") = true ->
        markdownLint_getLintConfig options (disk r2.2) = Normal cfg ->
        match files options with
        | Some _ => target = getLintFiles options MARKDOWN_LINT_FILE_EXT
        | None =>
            exists names,
              glob_sync (JsString.lit "**/*.md")
                (mkGlobOptions (cwd options) [JsString.lit "node_modules/**"])
                (disk r2.2) = Normal names
              /\ target = FileList names
        end ->
        MarkdownLint target ∈ calls).
Proof.
  intros Hsetup r1 r2 calls.
  set (r3 := if is_not_false (prop config "enableMarkdownlint")
             then markdown_run options r2.2 else (Normal [], r2.2)).
  set (r4 := if truthy (prop config "enablePrettier") && fix_ options
             then prettier_exec options r3.2 else (Normal tt, r3.2)).
  destruct (scan_passes_final s1 pkg config) as [l Hfinal].
  fold r1 r2 r3 r4 in Hfinal.
  assert (Hcalls : forall ev, ev ∈ trace r4.2 -> ev ∈ calls).
  { intros ev Hin. unfold calls, scan.
    rewrite (bind_normal _ _ _ _ _ Hsetup). simpl fst; simpl snd.
    rewrite Hfinal. simpl. apply elem_of_app. left. exact Hin. }
  assert (H34 : forall ev, ev ∈ trace r3.2 -> ev ∈ trace r4.2).
  { intros ev Hin. unfold r4.
    destruct (truthy (prop config "enablePrettier") && fix_ options);
      [|exact Hin].
    apply (run_extends (prettier_exec options)); [|exact Hin].
    intros J HJ1 HJ2. apply prettier_exec_stable; assumption. }
  assert (H23 : forall ev, ev ∈ trace r2.2 -> ev ∈ trace r3.2).
  { intros ev Hin. unfold r3.
    destruct (is_not_false (prop config "enableMarkdownlint")); [|exact Hin].
    apply (run_extends (markdown_run options)); [|exact Hin].
    intros J HJ1 HJ2. apply markdown_run_stable; assumption. }
  assert (H12 : forall ev, ev ∈ trace r1.2 -> ev ∈ trace r2.2).
  { intros ev Hin. unfold r2.
    destruct (is_not_false (prop config "enableStylelint")); [|exact Hin].
    apply (run_extends (stylelint_run options pkg config)); [|exact Hin].
    intros J HJ1 HJ2. apply stylelint_run_stable; assumption. }
  split; [|split].
  - intros cfg cli Hcfg Hcli. apply Hcalls, H34, H23, H12.
    set (ev := EslintLintFiles _).
    unfold r1, eslint_run.
    rewrite (bind_normal _ _ s1 cfg s1) by (unfold call_ro; rewrite Hcfg; reflexivity).
    rewrite (bind_normal _ _ s1 cli s1) by (unfold call_ro; rewrite Hcli; reflexivity).
    erewrite bind_normal by reflexivity.
    apply run_extends; [|simpl; apply elem_of_app; right; apply list_elem_of_here].
    intros J HJ1 HJ2.
    hoare_seq; [apply hoare_rw_stable, HJ1|].
    hoare_seq; [|hoare_skip].
    apply hoare_when. intros _.
    hoare_seq; [apply hoare_emit_stable, HJ2|apply hoare_rw_stable, HJ1].
  - intros cfg Hon Hcfg. apply Hcalls, H34, H23.
    revert Hcfg. unfold r2. rewrite Hon. intros Hcfg.
    unfold stylelint_run.
    rewrite (bind_normal _ _ r1.2 cfg r1.2) by (unfold call_ro; rewrite Hcfg; reflexivity).
    erewrite bind_normal by reflexivity.
    apply run_extends; [|simpl; apply elem_of_app; right; apply list_elem_of_here].
    intros J HJ1 HJ2.
    hoare_seq; [apply hoare_rw_stable, HJ1|].
    hoare_seq; hoare_skip.
  - intros cfg target Hon Hcfg Htarget. apply Hcalls, H34.
    unfold r3. rewrite Hon. unfold markdown_run.
    assert (Hfiles :
      (match files options with
       | Some _ => ret (getLintFiles options MARKDOWN_LINT_FILE_EXT)
       | None =>
           names <- call_ro (glob_sync (JsString.lit "**/*.md")
                      (mkGlobOptions (cwd options) [JsString.lit "node_modules/**"])) ;;
           ret (FileList names)
       end) r2.2 = (Normal target, r2.2)).
    { destruct (files options).
      - subst target. reflexivity.
      - destruct Htarget as (names & Hglob & ->).
        unfold bind, call_ro. rewrite Hglob. reflexivity. }
    rewrite (bind_normal _ _ _ _ _ Hfiles).
    rewrite (bind_normal _ _ r2.2 cfg r2.2) by (unfold call_ro; rewrite Hcfg; reflexivity).
    erewrite bind_normal by reflexivity.
    apply run_extends; [|simpl; apply elem_of_app; right; apply list_elem_of_here].
    intros J HJ1 HJ2.
    hoare_seq; [apply hoare_rw_stable, HJ1|hoare_skip].
Qed.

End Sure.

(** ** Dry runs, and the runs that reject *)

Section Rejects.
Context {V : Type}.
Context `{!Constants, !Platform}.
Context `{!EslintAdapter V, !StylelintAdapter V, !MarkdownlintAdapter V}.
Variable options : ScanOptions.

(** X3: without [fix], a run asks no tool to rewrite a file: it formats
    no file in the pre-fix pass, does not output the fixes of the script
    linter and does not run the post-fix formatter. *)
Theorem dry_run_rewrites_nothing (d : FileSystem) :
  fix_ options = false ->
  Forall (fun ev => rewrites_files ev = false) (trace (run_scan options d).2).
Proof.
  intros Hfix.
  destruct (run_scan_calls_any options d) as (config & _ & Hcalls).
  eapply Forall_impl; [exact Hcalls|]. simpl.
  intros ev Hev. destruct Hev; try reflexivity; congruence.
Qed.



Lemma readIgnore_directory filepath s :
  disk s !! resolve [resolve [cwd options; filepath]] = Some Dir ->
  readIgnore options filepath s
  = (Throw (EISDIR (resolve [cwd options; filepath])), s).
Proof.
  intros Hdir. unfold readIgnore, bind, existsSync, readFileSync, call_ro.
  cbn beta iota delta [fst snd]. rewrite Hdir.
  rewrite bool_decide_eq_true_2 by eauto.
  cbn beta iota. rewrite Hdir. reflexivity.
Qed.

(** X6: an ignore path that is a directory makes [scan] reject: once the
    manifest and the configuration module are read, reading the ignore
    file throws [EISDIR], nothing catches it, and no pass runs. *)
Theorem ignore_directory_rejects (d : FileSystem) pkg config :
  let s := mkSt d [] in
  readConfigFile options (JsString.lit "package.json") s = (Normal pkg, s) ->
  readConfigFile options (PKG_NAME ++ JsString.lit ".config.js") s
  = (Normal config, s) ->
  d !! resolve [resolve [cwd options; JsString.lit ".eslintignore"]] = Some Dir ->
  run_scan options d
  = (Throw (EISDIR (resolve [cwd options; JsString.lit ".eslintignore"])), s).
Proof.
  intros s Hpkg Hconfig Hdir.
  unfold run_scan. fold s. apply scan_setup_throw. unfold scan_setup.
  rewrite (bind_normal _ _ _ _ _ Hpkg), (bind_normal _ _ _ _ _ Hconfig).
  apply bind_throw. apply readIgnore_directory. exact Hdir.
Qed.

End Rejects.

(** X7: when neither the manifest nor the configuration module exists,
    nothing is loaded: the run is the same whatever [require] would do,
    and its setup, if it completes, yields the empty manifest and the
    empty configuration. *)
Theorem missing_configuration_is_empty {V : Type}
    `{!Constants} (P : Platform)
    `{!EslintAdapter V, !StylelintAdapter V, !MarkdownlintAdapter V}
    (options : ScanOptions) (d : FileSystem)
    (r : jsstring -> FileSystem -> Completion JsObj) :
  d !! resolve [resolve [cwd options; JsString.lit "package.json"]] = None ->
  d !! resolve [resolve [cwd options; PKG_NAME ++ JsString.lit ".config.js"]]
  = None ->
  @run_scan V _ P _ _ _ options d
  = @run_scan V _ (with_require P r) _ _ _ options d
  /\ forall loaded s1,
       @scan_setup _ P options (mkSt d []) = (Normal loaded, s1) ->
       loaded = (∅, ∅).
Proof.
  intros Hpkg Hconfig.
  assert (Hread : forall (Q : Platform) pth,
            @resolve Q = @resolve P ->
            d !! @resolve P [@resolve P [cwd options; pth]] = None ->
            @readConfigFile Q options pth (mkSt d []) = (Normal ∅, mkSt d [])).
  { intros Q pth HQ Hnone. unfold readConfigFile, bind, existsSync, call_ro.
    cbn beta iota. cbn [disk]. rewrite HQ, Hnone.
    rewrite bool_decide_eq_false_2; [reflexivity|]. intros [x Hx]. discriminate. }
  assert (Hsetup : forall (Q : Platform),
            @resolve Q = @resolve P ->
            @scan_setup _ Q options (mkSt d [])
            = (eslintIgnore <- @readIgnore Q options (JsString.lit ".eslintignore") ;;
               stylelintIgnore <- @readIgnore Q options (JsString.lit ".stylelintignore") ;;
               @prettier_pass _ Q options ∅ eslintIgnore stylelintIgnore ;;
               ret (∅, ∅)) (mkSt d [])).
  { intros Q HQ. unfold scan_setup.
    rewrite (bind_normal _ _ _ _ _ (Hread Q _ HQ Hpkg)).
    rewrite (bind_normal _ _ _ _ _ (Hread Q _ HQ Hconfig)). reflexivity. }
  split.
  - unfold run_scan, scan, bind.
    rewrite (Hsetup P eq_refl), (Hsetup (with_require P r) eq_refl).
    reflexivity.
  - intros loaded s1. rewrite (Hsetup P eq_refl). unfold bind.
    destruct (readIgnore options _ _) as [[i1|?] ?]; [|discriminate].
    destruct (readIgnore options _ _) as [[i2|?] ?]; [|discriminate].
    destruct (prettier_pass options _ _ _ _) as [[?|?] ?]; [|discriminate].
    intros [= <- _]. reflexivity.
Qed.

(** ** The report file *)

Lemma sorted_before_last (calls : list Event) (ev : Event) :
  StronglySorted before (calls ++ [ev]) ->
  (0 < phase ev)%nat ->
  Forall (fun ev' => (phase ev' < phase ev)%nat) calls.
Proof.
  intros Hsorted Hev. induction calls as [|a calls IH]; [constructor|].
  rewrite <- app_comm_cons in Hsorted.
  apply StronglySorted_inv in Hsorted as [Hrest Ha].
  constructor; [|apply IH, Hrest].
  apply Forall_app in Ha as [_ Ha]. apply Forall_inv in Ha.
  unfold before in Ha. lia.
Qed.

Section Report.
Context {V : Type}.
Context `{!Constants, !Platform}.
Context `{!EslintAdapter V, !StylelintAdapter V, !MarkdownlintAdapter V}.
Variable options : ScanOptions.

(** X8: a run that returns with [outputReport] set has requested the
    write of the report as its last call, and only once: to
    [path.resolve(process.cwd(), './<PKG_NAME>-report.json')], with
    [JSON.stringify(results, null, 2)] of the results it returns. A run
    without [outputReport] requests no write of a report. *)
Theorem report_is_written_last (d : FileSystem) report s' :
  run_scan options d = (Normal report, s') ->
  (outputReport options = true ->
   exists calls,
     trace s'
     = calls ++ [OutputFile
                   (resolve [process_cwd;
                             JsString.lit "./" ++ PKG_NAME
                             ++ JsString.lit "-report.json"])
                   (JSON.stringify (ScanReport.results report))]
     /\ Forall (fun ev => (phase ev < 6)%nat) calls)
  /\ (outputReport options = false ->
      Forall (fun ev => (phase ev < 6)%nat) (trace s')).
Proof.
  intros Hrun. split.
  - intros Hout.
    pose proof (scan_order options (mkSt d [])) as Hord.
    unfold run_scan in Hrun. rewrite Hrun in Hord.
    destruct Hord as [Hsorted _]; [split; constructor|].
    revert Hrun. unfold scan, bind.
    destruct (scan_setup options (mkSt d [])) as [[loaded|e] s1]; [|discriminate].
    destruct (scan_passes_final options s1 (fst loaded) (snd loaded)) as [l Hfinal].
    rewrite Hfinal, Hout. intros [= <- <-]. cbn [trace] in Hsorted |- *.
    eexists. split; [reflexivity|].
    apply sorted_before_last in Hsorted; [exact Hsorted|].
    cbn [phase]. lia.
  - intros Hout.
    destruct (run_scan_calls_any options d) as (config & _ & Hcalls).
    rewrite Hrun in Hcalls. simpl in Hcalls.
    eapply Forall_impl; [exact Hcalls|]. simpl.
    intros ev Hev. destruct Hev; simpl; try lia. congruence.
Qed.

End Report.

(** ** The pre-fix formatting pass *)

Section PreFix.
Context `{!Constants, !Platform}.
Variable options : ScanOptions.



End PreFix.

(** ** What the file sets depend on *)

Section Dependence.
Context {V : Type}.
Context `{!Constants, !Platform}.
Context `{!EslintAdapter V, !StylelintAdapter V, !MarkdownlintAdapter V}.

Hypothesis glob_by_shape :
  forall pattern opts d d',
    shape d = shape d' -> glob_sync pattern opts d = glob_sync pattern opts d'.
Hypothesis eslint_lintFiles_shape :
  forall v target d, shape (eslint_lintFiles v target d).2 = shape d.
Hypothesis eslint_outputFixes_shape :
  forall v d, shape (eslint_outputFixes v d).2 = shape d.
Hypothesis stylelint_lint_shape :
  forall v target d, shape (stylelint_lint v target d).2 = shape d.


End Dependence.

(** ** The pattern of the file-set resolver *)

Section Pattern.
Context `{!Platform}.
Variable options : ScanOptions.

Import JsString.

Lemma not_elem_of_join (c : N) (sep : jsstring) (parts : list jsstring) :
  c ∉ sep -> Forall (fun p => c ∉ p) parts -> c ∉ join sep parts.
Proof.
  intros Hsep Hparts. induction Hparts as [|p parts Hp _ IH]; simpl.
  - apply not_elem_of_nil.
  - destruct parts as [|q parts]; [exact Hp|].
    rewrite !elem_of_app. intros [H1|[H2|H3]]; auto.
Qed.

Lemma not_elem_of_strip_leading_dot (c : N) (t : jsstring) :
  c ∉ t -> c ∉ strip_leading_dot t.
Proof.
  destruct t as [|x t]; [auto|]. simpl. destruct (x =? 46); [|auto].
  intros Hc Hin. apply Hc. apply list_elem_of_further, Hin.
Qed.

(** X11: without an explicit file list, and for extensions that contain
    no slash, the resolver returns a pattern that ends with
    [**/*.{e1,...,en}], the extensions without their leading dot: what
    [cwd] and [include] are does not alter the glob. When [include] is an
    absolute path the pattern does not depend on [cwd] at all. *)
Theorem resolver_pattern_keeps_the_glob (ext : list jsstring) :
  files options = None ->
  Forall (fun e => Path.SLASH ∉ e) ext ->
  (exists prefix,
     getLintFiles options ext
     = Pattern (prefix ++ lit "**/*.{"
                ++ join (lit ",") (map strip_leading_dot ext) ++ lit "}"))
  /\ (Path.is_absolute (include options) = true ->
      forall cwd',
        getLintFiles
          (mkScanOptions cwd' (include options) (files options)
             (quiet options) (fix_ options) (outputReport options)) ext
        = getLintFiles options ext).
Proof.
  intros Hf Hext. split.
  - unfold getLintFiles. rewrite Hf. unfold resolve, ext_pattern.
    set (b := lit "*.{" ++ join (lit ",") (map strip_leading_dot ext) ++ lit "}").
    assert (Hb : Path.SLASH ∉ b).
    { unfold b. rewrite !elem_of_app. intros [H1|[H2|H3]].
      - revert H1. vm_compute. intros H1.
        repeat (apply elem_of_cons in H1 as [H1|H1]; [discriminate|]).
        apply elem_of_nil in H1. exact H1.
      - revert H2. apply not_elem_of_join.
        + vm_compute. intros H2.
          repeat (apply elem_of_cons in H2 as [H2|H2]; [discriminate|]).
          apply elem_of_nil in H2. exact H2.
        + apply Forall_fmap. eapply Forall_impl; [exact Hext|]. simpl.
          intros e. apply not_elem_of_strip_leading_dot.
      - revert H3. vm_compute. intros H3.
        repeat (apply elem_of_cons in H3 as [H3|H3]; [discriminate|]).
        apply elem_of_nil in H3. exact H3. }
    destruct (resolve_ends_with process_cwd [cwd options; include options]
                (lit "**") b) as (prefix & Hres);
      try exact Hb; try discriminate; try reflexivity.
    + vm_compute. intros Hin.
      repeat (apply elem_of_cons in Hin as [Hin|Hin]; [discriminate|]).
      apply elem_of_nil in Hin. exact Hin.
    + exists prefix. f_equal.
      change (lit "**/*.{" ++ join (lit ",") (map strip_leading_dot ext) ++ lit "}")
        with (lit "**" ++ [Path.SLASH] ++ b).
      exact Hres.
  - intros Habs cwd'. unfold getLintFiles. cbn [files cwd include]. rewrite Hf.
    f_equal. unfold resolve, Path.resolve. cbn [rev app].
    set (pat := ext_pattern ext).
    assert (Hpat : pat ≠ [] /\ Path.is_absolute pat = false).
    { unfold pat, ext_pattern. split; [discriminate|reflexivity]. }
    destruct Hpat as [Hne Hrel].
    rewrite !(resolve_loop_relative pat) by assumption.
    destruct (include options) as [|c inc]; [discriminate|].
    cbn [Path.resolve_loop]. rewrite Habs. reflexivity.
Qed.

End Pattern.

(** ** The post-fix formatter *)

Section PostFix.
Context {V : Type}.
Context `{!Constants, !Platform}.
Context `{!EslintAdapter V, !StylelintAdapter V, !MarkdownlintAdapter V}.
Variable options : ScanOptions.

(** X12: with an explicit file list, once the setup is over, the
    post-fix formatter is run exactly when [fix] is set and the loaded
    [enablePrettier] is truthy: it is then called once on the binary
    [path.resolve(__dirname, '../../node_modules/.bin/prettier')] with
    [-w] and the entries of the list with a script or style extension;
    otherwise it is not called. *)
Theorem post_fix_formatter_runs_by_truthiness
    (d : FileSystem) (s1 : St) (pkg config : JsObj) (names : list jsstring) :
  scan_setup options (mkSt d []) = (Normal (pkg, config), s1) ->
  files options = Some names ->
  let calls := trace (run_scan options d).2 in
  let call :=
    PrettierExec
      (resolve [__dirname; JsString.lit "../../node_modules/.bin/prettier"])
      (JsString.lit "-w"
       :: with_extension (ESLINT_FILE_EXT ++ STYLELINT_FILE_EXT) names) in
  if truthy (prop config "enablePrettier") && fix_ options
  then filter (fun ev => phase ev = 5%nat) calls = [call]
  else filter (fun ev => phase ev = 5%nat) calls = [].
Proof.
  intros Hsetup Hf calls call.
  destruct (truthy (prop config "enablePrettier") && fix_ options) eqn:Hon.
  - assert (Hin : call ∈ calls).
    { unfold calls, run_scan, scan.
      rewrite (bind_normal _ _ _ _ _ Hsetup). cbn [fst snd].
      destruct (scan_passes_final options s1 pkg config) as [l Hfinal].
      rewrite Hfinal. cbn [snd trace]. apply elem_of_app. left.
      rewrite Hon. unfold prettier_exec. rewrite Hf.
      rewrite bind_ret_l. rewrite (getLintFiles_list _ _ _ Hf). cbn [spread].
      fold call. erewrite bind_normal by reflexivity.
      unfold call_rw. cbn [disk trace].
      destruct (execa_sync _ _ _) as [c d']. cbn [snd trace].
      apply elem_of_app. right. apply list_elem_of_here. }
    pose proof (calls_are_in_stage_order options d) as (_ & _ & Hone).
    specialize (Hone 5%nat ltac:(lia)). fold calls in Hone.
    assert (Hin' : call ∈ filter (fun ev => phase ev = 5%nat) calls).
    { apply list_elem_of_filter. split; [reflexivity|exact Hin]. }
    destruct (filter (fun ev => phase ev = 5%nat) calls) as [|x [|y rest]].
    + apply elem_of_nil in Hin'. destruct Hin'.
    + apply list_elem_of_singleton in Hin'. subst x. reflexivity.
    + simpl in Hone. lia.
  - apply elem_of_nil_inv. intros ev [Hphase Hev]%list_elem_of_filter.
    destruct (run_scan_calls_any options d) as (config' & Hc & Hcalls).
    rewrite <- (Hc _ _ _ Hsetup) in Hcalls.
    rewrite Forall_forall in Hcalls. apply Hcalls in Hev.
    apply andb_false_iff in Hon.
    destruct Hev; simpl in Hphase; try discriminate;
      destruct Hon; congruence.
Qed.

End PostFix.

(** ** Line ends of an ignore file *)

Section LineEnds.
Import JsString.

Lemma split_on_none (sep : N) (s : jsstring) :
  sep ∉ s -> split_on sep s = [s].
Proof.
  induction s as [|c s IHs]; intros Hs; [reflexivity|]. simpl.
  destruct (N.eqb_spec c sep) as [->|Hne].
  - exfalso. apply Hs. apply list_elem_of_here.
  - rewrite IHs; [reflexivity|]. intros Hin. apply Hs.
    apply list_elem_of_further, Hin.
Qed.

(** The trimmed lines of a text written with line feeds, or with carriage
    returns and line feeds, are the trimmed lines it was written from. *)
Lemma trimmed_lines_of_join (crlf : bool) (ls : list jsstring) :
  ls ≠ [] ->
  Forall (fun l => LF ∉ l) ls ->
  map trim (lines_of (join (if crlf then [CR; LF] else [LF]) ls))
  = map trim ls.
Proof.
  intros Hne Hls. unfold lines_of.
  induction Hls as [|l ls Hl Hrest IH]; [congruence|].
  destruct ls as [|l' ls].
  - simpl. rewrite (split_on_none LF l Hl). reflexivity.
  - change (join ?sep (l :: l' :: ls)) with (l ++ sep ++ join sep (l' :: ls)).
    destruct crlf.
    + change (l ++ [CR; LF] ++ ?t) with (l ++ CR :: LF :: t).
      replace (l ++ CR :: LF :: join [CR; LF] (l' :: ls))
        with ((l ++ [CR]) ++ LF :: join [CR; LF] (l' :: ls))
        by (rewrite <- app_assoc; reflexivity).
      rewrite split_on_app, map_app, IH by discriminate.
      rewrite split_on_none.
      * simpl. rewrite trim_snoc_stripped by reflexivity. reflexivity.
      * rewrite elem_of_app, list_elem_of_singleton.
        intros [Hin|Heq]; [exact (Hl Hin)|discriminate].
    + change (l ++ [LF] ++ ?t) with (l ++ LF :: t).
      rewrite split_on_app, map_app, IH by discriminate.
      rewrite (split_on_none LF l Hl). reflexivity.
Qed.

Context `{!Platform}.
Variable options : ScanOptions.

(** X13: an ignore file reads the same with Windows line ends as with
    Unix line ends: written from the same lines, joined by CR LF or by
    LF, it yields the trimmed lines that are neither empty nor
    comments. *)
Theorem ignore_file_reads_the_same_with_crlf
    (filepath : jsstring) (ls : list jsstring) (crlf : bool) (s : St) :
  ls ≠ [] ->
  Forall (fun l => LF ∉ l) ls ->
  disk s !! resolve [resolve [cwd options; filepath]]
  = Some (File (join (if crlf then [CR; LF] else [LF]) ls)) ->
  readIgnore options filepath s
  = (Normal (filter (fun l => l ≠ [] /\ head l ≠ Some 35) (map trim ls)), s).
Proof.
  intros Hne Hls Hlook.
  destruct (readIgnore_reads_pattern_lines options filepath s) as (Hfile & _).
  rewrite (Hfile _ Hlook).
  change (trim <$> lines_of ?c) with (map trim (lines_of c)).
  rewrite (trimmed_lines_of_join crlf ls Hne Hls). reflexivity.
Qed.

End LineEnds.

(** ** The theorems at work on the test doubles *)

Import JsString.

(** The style linter throws: the script and markdown results are
    reported, with one run error. *)
Lemma scan_isolates_failing_passes_witness :
  let crash := Fixture.boom "stylelint crashed" in
  let opts := Fixture.options false false Fixture.sample_files in
  let s0 := mkSt Fixture.project [] in
  let P := Fixture.platform ∅ None in
  let E := Fixture.eslint None in
  let S := Fixture.stylelint (Some crash) in
  let Md := Fixture.markdownlint None in
  (Fixture.run ∅ None (Some crash) None None opts Fixture.project).1
  = Normal (ScanReport.mk
              [Fixture.result_for false (lit "a.ts");
               Fixture.result_for false (lit "c.md")]
              2 2 [crash])
  /\ (let r1 := @eslint_run _ Fixture.constants P E opts ∅ ∅ s0 in
      let r2 := if is_not_false (prop ∅ "enableStylelint")
                then @stylelint_run _ Fixture.constants P S opts ∅ ∅ r1.2
                else (Normal [], r1.2) in
      let r3 := if is_not_false (prop ∅ "enableMarkdownlint")
                then @markdown_run _ Fixture.constants P Md opts r2.2
                else (Normal [], r2.2) in
      let r4 := if truthy (prop ∅ "enablePrettier") && fix_ opts
                then @prettier_exec Fixture.constants P opts r3.2
                else (Normal tt, r3.2) in
      exists report s',
        @scan _ Fixture.constants P E S Md opts s0 = (Normal report, s')
        /\ ScanReport.results report
           = produced r1.1 ++ produced r2.1 ++ produced r3.1
        /\ ScanReport.runErrors report
           = thrown r1.1 ++ thrown r2.1 ++ thrown r3.1 ++ thrown r4.1).
Proof.
  intros crash opts s0 P E S Md.
  split; [vm_compute; reflexivity|].
  apply (@scan_isolates_failing_passes (list jsstring) Fixture.constants
           P E S Md opts s0 s0 ∅ ∅).
  vm_compute. reflexivity.
Defined.

Lemma report_counts_are_sums_witness :
  exists report s',
    Fixture.run ∅ None None None None
      (Fixture.options false false Fixture.sample_files) Fixture.project
    = (Normal report, s')
    /\ ScanReport.errorCount report = 3
    /\ N.to_nat (ScanReport.errorCount report)
       = sum_list_with (fun r => N.to_nat (ScanResult.errorCount r))
           (ScanReport.results report)
    /\ N.to_nat (ScanReport.warningCount report)
       = sum_list_with (fun r => N.to_nat (ScanResult.warningCount r))
           (ScanReport.results report).
Proof.
  eexists. eexists. split; [vm_compute; reflexivity|].
  split; [reflexivity|].
  eapply (@report_counts_are_sums (list jsstring) Fixture.constants
            (Fixture.platform ∅ None) (Fixture.eslint None)
            (Fixture.stylelint None) (Fixture.markdownlint None)
            (Fixture.options false false Fixture.sample_files) (mkSt Fixture.project [])).
  vm_compute. reflexivity.
Defined.



(** The style linter is switched off: it is not called, and a style
    linter that would throw changes nothing. *)
Lemma disabled_stylelint_leaves_no_mark_witness :
  let config := Fixture.config_with "enableStylelint" (JBool false) in
  let opts := Fixture.options false false Fixture.sample_files in
  let s0 := mkSt Fixture.project [] in
  let P := Fixture.platform config None in
  let E := Fixture.eslint None in
  let S := Fixture.stylelint None in
  let S' := Fixture.stylelint (Some (Fixture.boom "stylelint crashed")) in
  let Md := Fixture.markdownlint None in
  (Fixture.run config None None None None opts Fixture.project).1
  = Normal (ScanReport.mk
              [Fixture.result_for false (lit "a.ts");
               Fixture.result_for false (lit "c.md")]
              2 2 [])
  /\ (let r1 := @eslint_run _ Fixture.constants P E opts config config s0 in
      let r3 := if is_not_false (prop config "enableMarkdownlint")
                then @markdown_run _ Fixture.constants P Md opts r1.2
                else (Normal [], r1.2) in
      let r4 := if truthy (prop config "enablePrettier") && fix_ opts
                then @prettier_exec Fixture.constants P opts r3.2
                else (Normal tt, r3.2) in
      file_sets StyleLint
        (trace (@run_scan _ Fixture.constants P E S Md opts Fixture.project).2)
      = []
      /\ @run_scan _ Fixture.constants P E S Md opts Fixture.project
         = @run_scan _ Fixture.constants P E S' Md opts Fixture.project
      /\ exists report s',
           @run_scan _ Fixture.constants P E S Md opts Fixture.project
           = (Normal report, s')
           /\ ScanReport.results report = produced r1.1 ++ produced r3.1
           /\ ScanReport.runErrors report
              = thrown r1.1 ++ thrown r3.1 ++ thrown r4.1).
Proof.
  intros config opts s0 P E S S' Md.
  split; [vm_compute; reflexivity|].
  apply (@disabled_stylelint_leaves_no_mark (list jsstring)
           Fixture.constants P E Md opts S S' Fixture.project config config s0).
  - vm_compute. reflexivity.
  - vm_compute. reflexivity.
Defined.

(** Reading the sample [.eslintignore], and the missing
    [.stylelintignore]. *)
Lemma readIgnore_reads_pattern_lines_witness :
  let opts := Fixture.options false false None in
  let s := mkSt Fixture.project_with_ignores [] in
  @readIgnore (Fixture.platform ∅ None) opts (lit ".eslintignore") s
  = (Normal [lit "dist/"; lit "coverage/"; lit "*.min.js"], s)
  /\ @readIgnore (Fixture.platform ∅ None) opts (lit ".stylelintignore") s
     = (Normal [], s)
  /\ Forall (fun l => trim l = l /\ l ≠ [] /\ head l ≠ Some 35)
       [lit "dist/"; lit "coverage/"; lit "*.min.js"].
Proof.
  intros opts s.
  destruct (@readIgnore_reads_pattern_lines (Fixture.platform ∅ None) opts
              (lit ".eslintignore") s) as (Hfile & _ & Hagain).
  destruct (@readIgnore_reads_pattern_lines (Fixture.platform ∅ None) opts
              (lit ".stylelintignore") s) as (_ & Hmissing & _).
  assert (Hread : @readIgnore (Fixture.platform ∅ None) opts
                    (lit ".eslintignore") s
                  = (Normal [lit "dist/"; lit "coverage/"; lit "*.min.js"], s)).
  { rewrite (Hfile Fixture.ignore_sample); [|vm_compute; reflexivity].
    vm_compute. reflexivity. }
  split; [exact Hread|].
  split; [apply Hmissing; vm_compute; reflexivity|].
  apply (Hagain _ _ Hread).
Defined.


(** A run with [fix], the formatter switched on and the report: its
    calls, stage by stage. *)
Lemma calls_are_in_stage_order_witness :
  let config := Fixture.config_with "enablePrettier" (JBool true) in
  let opts := Fixture.options true true Fixture.sample_files in
  let tr := trace (@run_scan _ Fixture.constants (Fixture.platform config None)
                     (Fixture.eslint None) (Fixture.stylelint None)
                     (Fixture.markdownlint None) opts Fixture.project).2 in
  map phase tr = [0; 0; 1; 2; 3; 4; 5; 6]%nat
  /\ StronglySorted before tr
  /\ (length (file_sets MarkdownLinter tr) <= 1)%nat
  /\ (length (filter (fun ev => phase ev = 6%nat) tr) <= 1)%nat.
Proof.
  intros config opts tr.
  split; [vm_compute; reflexivity|].
  destruct (@calls_are_in_stage_order _ Fixture.constants
              (Fixture.platform config None) (Fixture.eslint None)
              (Fixture.stylelint None) (Fixture.markdownlint None)
              opts Fixture.project) as (Hsorted & Htool & Hphase).
  split; [exact Hsorted|]. split; [exact (Htool MarkdownLinter)|].
  apply Hphase. repeat constructor.
Defined.

(** [enableStylelint: 0] is not [false]: the style linter is called. *)
Lemma enabled_linters_are_called_witness :
  let config := Fixture.config_with "enableStylelint" (JNum 0) in
  let opts := Fixture.options false false Fixture.sample_files in
  let s0 := mkSt Fixture.project [] in
  let P := Fixture.platform config None in
  let E := Fixture.eslint None in
  let S := Fixture.stylelint None in
  let Md := Fixture.markdownlint None in
  let calls := trace (@scan _ Fixture.constants P E S Md opts s0).2 in
  file_sets StyleLint calls = [FileList [lit "b.css"]]
  /\ EslintLintFiles (@getLintFiles P opts (@ESLINT_FILE_EXT Fixture.constants))
     ∈ calls
  /\ StylelintLint (@getLintFiles P opts (@STYLELINT_FILE_EXT Fixture.constants))
     ∈ calls
  /\ MarkdownLint (@getLintFiles P opts (@MARKDOWN_LINT_FILE_EXT Fixture.constants))
     ∈ calls.
Proof.
  intros config opts s0 P E S Md calls.
  split; [vm_compute; reflexivity|].
  destruct (@enabled_linters_are_called _ Fixture.constants P E S Md opts
              s0 s0 config config) as (Hscript & Hstyle & Hmarkdown).
  { vm_compute. reflexivity. }
  split; [apply (Hscript [] []); reflexivity|].
  split; [apply (Hstyle []); [vm_compute|]; reflexivity|].
  apply (Hmarkdown []); [vm_compute; reflexivity|reflexivity|].
  reflexivity.
Defined.

(** A run without [fix]: the three linters, and nothing that rewrites. *)
Lemma dry_run_rewrites_nothing_witness :
  let opts := Fixture.options false false Fixture.sample_files in
  let tr := trace (@run_scan _ Fixture.constants (Fixture.platform ∅ None)
                     (Fixture.eslint None) (Fixture.stylelint None)
                     (Fixture.markdownlint None) opts Fixture.project).2 in
  map phase tr = [1; 3; 4]%nat
  /\ Forall (fun ev => rewrites_files ev = false) tr.
Proof.
  intros opts tr. split; [vm_compute; reflexivity|].
  apply (@dry_run_rewrites_nothing _ Fixture.constants (Fixture.platform ∅ None)
           (Fixture.eslint None) (Fixture.stylelint None)
           (Fixture.markdownlint None) opts Fixture.project).
  reflexivity.
Defined.



(** [.eslintignore] is a directory: the run rejects before any pass. *)
Lemma ignore_directory_rejects_witness :
  let opts := Fixture.options false false Fixture.sample_files in
  let d := Fixture.project_with_ignore_directory in
  @run_scan _ Fixture.constants (Fixture.platform ∅ None)
    (Fixture.eslint None) (Fixture.stylelint None) (Fixture.markdownlint None)
    opts d
  = (Throw (EISDIR (@resolve (Fixture.platform ∅ None)
                      [cwd opts; lit ".eslintignore"])),
     mkSt d []).
Proof.
  intros opts d.
  apply (@ignore_directory_rejects _ Fixture.constants (Fixture.platform ∅ None)
           (Fixture.eslint None) (Fixture.stylelint None)
           (Fixture.markdownlint None) opts d ∅ ∅).
  - vm_compute. reflexivity.
  - vm_compute. reflexivity.
  - vm_compute. reflexivity.
Defined.

(** On the bare project a [require] that throws changes nothing. *)
Lemma missing_configuration_is_empty_witness :
  let P := Fixture.platform (Fixture.config_with "enableStylelint" (JBool false))
             None in
  let opts := Fixture.options false false Fixture.sample_files in
  let r := fun (_ : jsstring) (_ : FileSystem) =>
             @Throw JsObj (Fixture.boom "malformed") in
  @run_scan _ Fixture.constants P (Fixture.eslint None) (Fixture.stylelint None)
    (Fixture.markdownlint None) opts Fixture.bare_project
  = @run_scan _ Fixture.constants (with_require P r) (Fixture.eslint None)
      (Fixture.stylelint None) (Fixture.markdownlint None) opts
      Fixture.bare_project
  /\ file_sets StyleLint
       (trace (@run_scan _ Fixture.constants P (Fixture.eslint None)
                 (Fixture.stylelint None) (Fixture.markdownlint None) opts
                 Fixture.bare_project).2)
     = [FileList [lit "b.css"]].
Proof.
  intros P opts r. split; [|vm_compute; reflexivity].
  apply (@missing_configuration_is_empty _ Fixture.constants P
           (Fixture.eslint None) (Fixture.stylelint None)
           (Fixture.markdownlint None) opts Fixture.bare_project r).
  - vm_compute. reflexivity.
  - vm_compute. reflexivity.
Defined.

(** A run with [outputReport]: the report is the last call. *)
Lemma report_is_written_last_witness :
  let opts := Fixture.options false true Fixture.sample_files in
  let P := Fixture.platform ∅ None in
  exists report s',
    @run_scan _ Fixture.constants P (Fixture.eslint None)
      (Fixture.stylelint None) (Fixture.markdownlint None) opts Fixture.project
    = (Normal report, s')
    /\ map phase (trace s') = [1; 3; 4; 6]%nat
    /\ exists calls,
         trace s'
         = calls ++ [OutputFile
                       (@resolve P
                          [@process_cwd P;
                           lit "./" ++ @PKG_NAME Fixture.constants
                           ++ lit "-report.json"])
                       (JSON.stringify (ScanReport.results report))]
         /\ Forall (fun ev => (phase ev < 6)%nat) calls.
Proof.
  intros opts P. eexists. eexists.
  split; [vm_compute; reflexivity|].
  split; [vm_compute; reflexivity|].
  eapply (proj1 (@report_is_written_last _ Fixture.constants P
                   (Fixture.eslint None) (Fixture.stylelint None)
                   (Fixture.markdownlint None) opts Fixture.project _ _ _)).
  reflexivity.
  Unshelve. vm_compute. reflexivity.
Defined.



(** The script pattern under [/proj], and under an absolute [include]. *)
Lemma resolver_pattern_keeps_the_glob_witness :
  let P := Fixture.platform ∅ None in
  let ext := @ESLINT_FILE_EXT Fixture.constants in
  let o := mkScanOptions (lit "/proj") (lit "/srv/app") None false false false in
  @getLintFiles P o ext = Pattern (lit "/srv/app/**/*.{js,jsx,ts,tsx,vue}")
  /\ (exists prefix,
        @getLintFiles P o ext
        = Pattern (prefix ++ lit "**/*.{"
                   ++ join (lit ",") (map strip_leading_dot ext) ++ lit "}"))
  /\ forall cwd',
       @getLintFiles P
         (mkScanOptions cwd' (include o) (files o) (quiet o) (fix_ o)
            (outputReport o)) ext
       = @getLintFiles P o ext.
Proof.
  intros P ext o. split; [vm_compute; reflexivity|].
  destruct (@resolver_pattern_keeps_the_glob P o ext) as (Hends & Habs).
  - reflexivity.
  - apply (bool_decide_unpack _). vm_compute. exact Logic.I.
  - split; [exact Hends|]. apply Habs. reflexivity.
Defined.

(** [enablePrettier: true] with [fix]: one call to the formatter. *)
Lemma post_fix_formatter_runs_by_truthiness_witness :
  let config := Fixture.config_with "enablePrettier" (JBool true) in
  let P := Fixture.platform config None in
  let opts := Fixture.options true false Fixture.sample_files in
  let calls := trace (@run_scan _ Fixture.constants P (Fixture.eslint None)
                        (Fixture.stylelint None) (Fixture.markdownlint None)
                        opts Fixture.project).2 in
  let call :=
    PrettierExec
      (@resolve P [@__dirname P; lit "../../node_modules/.bin/prettier"])
      (lit "-w"
       :: with_extension
            (@ESLINT_FILE_EXT Fixture.constants
             ++ @STYLELINT_FILE_EXT Fixture.constants)
            (map lit ["a.ts"; "b.css"; "c.md"]%string)) in
  truthy (prop config "enablePrettier") && fix_ opts = true
  /\ call = PrettierExec
              (lit "/proj/node_modules/f2elint/node_modules/.bin/prettier")
              [lit "-w"; lit "a.ts"; lit "b.css"]
  /\ if truthy (prop config "enablePrettier") && fix_ opts
     then filter (fun ev => phase ev = 5%nat) calls = [call]
     else filter (fun ev => phase ev = 5%nat) calls = [].
Proof.
  intros config P opts calls call.
  split; [vm_compute; reflexivity|]. split; [vm_compute; reflexivity|].
  eapply (@post_fix_formatter_runs_by_truthiness _ Fixture.constants P
            (Fixture.eslint None) (Fixture.stylelint None)
            (Fixture.markdownlint None) opts Fixture.project _ config config
            (map lit ["a.ts"; "b.css"; "c.md"]%string)).
  - vm_compute. reflexivity.
  - reflexivity.
Defined.

(** The sample lines, written with Windows line ends. *)
Lemma ignore_file_reads_the_same_with_crlf_witness :
  let P := Fixture.platform ∅ None in
  let opts := Fixture.options false false None in
  let s := mkSt Fixture.project_with_crlf [] in
  filter (fun l => l ≠ [] /\ head l ≠ Some 35) (map trim Fixture.ignore_lines)
  = [lit "dist/"; lit "coverage/"; lit "*.min.js"]
  /\ @readIgnore P opts (lit ".eslintignore") s
     = (Normal (filter (fun l => l ≠ [] /\ head l ≠ Some 35)
                  (map trim Fixture.ignore_lines)), s).
Proof.
  intros P opts s. split; [vm_compute; reflexivity|].
  apply (@ignore_file_reads_the_same_with_crlf P opts (lit ".eslintignore")
           Fixture.ignore_lines true s).
  - discriminate.
  - apply (bool_decide_unpack _). vm_compute. exact Logic.I.
  - vm_compute. reflexivity.
Defined.
